(** * Scope validation of the BrighterScript analysis engine

    A shallow embedding of [src/Scope.ts] (class [Scope]) and of the
    descriptor scope built on it (class [XmlScope]), followed by the
    properties proved about them.

    Conventions of the embedding.
    - A JavaScript object used as a dictionary is a [JsObj]: a finite map
      together with the list of its keys in insertion order, which is the
      order a [for ... in] loop visits them in.
    - A scope object is identified by its name: the program keeps its scopes
      in a registry keyed by name, and every diagnostic only ever reads
      [scope.name]. The comparison [container.scope === this] is the
      comparison of the two names.
    - Methods that push onto [this.diagnostics] are functions returning the
      diagnostics pushed, in the order they are pushed.
    - Methods that mutate scopes are functions on a [World], the heap of the
      scope objects of one program; [None] is a run that did not finish
      (a thrown [TypeError] or an exhausted recursion budget) or a call on
      a name that is no scope of the program.
    - A collaborator whose code is not among the sources is either a field
      of the class [Collaborators], about which nothing is assumed, or a
      definition marked as modelled from the spec.
    - [toLowerCase] lowers the ASCII letters and leaves every other byte
      alone (identifiers of the language are ASCII). *)

From stdpp Require Import base option list strings gmap pretty.
From Stdlib Require Import Ascii String.

Local Open Scope string_scope.
Local Open Scope list_scope.
Set Warnings "-register-all".

(* ================================================================== *)
(** * Part I: definitions *)
(* ================================================================== *)

(** ** Strings *)

Definition lower_ascii (c : ascii) : ascii :=
  let n := nat_of_ascii c in
  if ((65 <=? n)%nat && (n <=? 90)%nat)%bool then ascii_of_nat (n + 32) else c.

(** [String.prototype.toLowerCase] *)
Fixpoint toLowerCase (s : string) : string :=
  match s with
  | EmptyString => EmptyString
  | String c s' => String (lower_ascii c) (toLowerCase s')
  end.

(** [String.prototype.split] with a one-character separator: it never
    returns the empty array, the empty string splits to [[""]]. *)
Fixpoint split (sep : ascii) (s : string) : list string :=
  match s with
  | EmptyString => [EmptyString]
  | String c s' =>
      if Ascii.eqb c sep then EmptyString :: split sep s'
      else match split sep s' with
           | [] => [String c EmptyString]
           | p :: ps => String c p :: ps
           end
  end.

(** [Array.prototype.join] *)
Definition join (sep : string) (parts : list string) : string :=
  String.concat sep parts.

(** [Array.prototype.pop], keeping the array that is left *)
Definition pop {A} (l : list A) : list A := removelast l.


Definition is_whitespace (c : ascii) : bool :=
  let n := nat_of_ascii c in
  ((n =? 32)%nat || ((9 <=? n)%nat && (n <=? 13)%nat))%bool.

Fixpoint trimStart (s : string) : string :=
  match s with
  | EmptyString => EmptyString
  | String c s' => if is_whitespace c then trimStart s' else s
  end.

(** [String.prototype.trim] *)
Definition trim (s : string) : string :=
  String.rev (trimStart (String.rev (trimStart s))).

(** A string is truthy when it is not empty; [undefined] is falsy. *)
Definition truthy (s : option string) : bool :=
  match s with
  | Some s => negb (String.eqb s "")
  | None => false
  end.

(** ** JavaScript objects used as dictionaries *)

Record JsObj (V : Type) := mkObj {
  obj_keys : list string;
  obj_map : gmap string V
}.
Arguments mkObj {V} _ _.
Arguments obj_keys {V} _.
Arguments obj_map {V} _.

Definition obj_empty {V} : JsObj V := mkObj [] ∅.

(** [o[k]] *)
Definition obj_get {V} (o : JsObj V) (k : string) : option V := obj_map o !! k.

(** [o[k] = v] *)
Definition obj_set {V} (k : string) (v : V) (o : JsObj V) : JsObj V :=
  mkObj (if bool_decide (k ∈ obj_keys o) then obj_keys o else obj_keys o ++ [k])
        (<[k := v]> (obj_map o)).

(** [delete o[k]] *)
Definition obj_delete {V} (k : string) (o : JsObj V) : JsObj V :=
  mkObj (filter (λ k', k' ≠ k) (obj_keys o)) (delete k (obj_map o)).

(** the pairs a [for (let k in o) { let v = o[k]; ... }] loop visits *)
Definition obj_entries {V} (o : JsObj V) : list (string * V) :=
  omap (λ k, (λ v, (k, v)) <$> obj_get o k) (obj_keys o).

(** keys and map agree: what every object built from [obj_empty] with
    [obj_set] and [obj_delete] satisfies *)
Definition obj_wf {V} (o : JsObj V) : Prop :=
  NoDup (obj_keys o) ∧ ∀ k, k ∈ obj_keys o ↔ is_Some (obj_map o !! k).

(** ** Source positions *)

Record Position := mkPosition { line : nat; character : nat }.

Record Range := mkRange { start : Position; end_ : Position }.

(** [Range.create] of vscode-languageserver *)
Definition Range_create (l1 c1 l2 c2 : nat) : Range :=
  mkRange (mkPosition l1 c1) (mkPosition l2 c2).

(** ** The program model read by a scope *)

Inductive ParseMode := BrightScript | BrighterScript.

(** What the code reads of a file object it only holds a reference to. *)
Record FileId := mkFileId { pathAbsolute : string; pkgPath : string }.

(** A scope object, by name. *)
Definition ScopeId := string.

Record Param := mkParam { param_name : string; isOptional : bool }.

Record Callable := mkCallable {
  callable_name : string;
  getName : ParseMode → string;
  callable_file : FileId;
  callable_nameRange : Range;
  params : list Param;
  hasNamespace : bool
}.

Record CallableContainer := mkContainer {
  callable : Callable;
  scope : ScopeId
}.

Record FunctionCall := mkCall {
  call_name : string;
  args : list string;
  call_nameRange : Range
}.

(** [BscType]: the code only asks [type instanceof FunctionType]. *)
Inductive BscType := FunctionType | OtherType (description : string).

Definition instanceof_FunctionType (t : BscType) : bool :=
  match t with FunctionType => true | OtherType _ => false end.

Record VariableDeclaration := mkVar {
  var_name : string;
  var_type : BscType;
  var_nameRange : Range
}.

Record FunctionScope := mkFunctionScope {
  variableDeclarations : list VariableDeclaration
}.

Record ClassStatement := mkClass {
  class_name_text : string;
  class_getName : ParseMode → string
}.

Record FunctionStatement := mkFunction { function_name_text : string }.

Inductive Statement :=
| SClass (c : ClassStatement)
| SFunction (f : FunctionStatement)
| SOther (text : string).

Record NamespaceStatement := mkNamespace {
  (** [nameExpression.getName(ParseMode.BrighterScript)], the dotted path *)
  namespace_name : string;
  body_statements : list Statement
}.

(** ** Diagnostics *)

(** [minMaxParamsText] is a number or a string. *)
Inductive ParamsText := TextNumber (n : nat) | TextString (s : string).

Definition ParamsText_toString (t : ParamsText) : string :=
  match t with
  | TextNumber n => pretty n
  | TextString s => s
  end.

Inductive DiagnosticInfo :=
| callToUnknownFunction (name scopeName : string)
| mismatchArgumentCount (expected : ParamsText) (actual : nat)
| duplicateFunctionImplementation (name scopeName : string)
| overridesAncestorFunction
    (callableName currentScopeName parentFilePath parentScopeName : string)
| localVarFunctionShadowsParentFunction (scopeName : string)
| localVarShadowedByScopedFunction
| scopeFunctionShadowedByBuiltInFunction
| unnecessaryScriptImportInChildFromParent (parentComponentName : option string)
| scriptSrcCannotBeEmpty
| referencedFileDoesNotExist
| scriptImportCaseMismatch (correctFilePath : string)
| otherDiagnostic (code : nat) (message : string).

Inductive Severity := SevError | SevWarning | SevInformation | SevHint.

(** Modelled from the spec: [DiagnosticMessages] is not part of the sources;
    the severities are those of the taxonomy of the design (section 7). *)
Definition severity (d : DiagnosticInfo) : Severity :=
  match d with
  | callToUnknownFunction _ _ => SevError
  | mismatchArgumentCount _ _ => SevError
  | duplicateFunctionImplementation _ _ => SevError
  | overridesAncestorFunction _ _ _ _ => SevInformation
  | localVarFunctionShadowsParentFunction _ => SevWarning
  | localVarShadowedByScopedFunction => SevWarning
  | scopeFunctionShadowedByBuiltInFunction => SevWarning
  | unnecessaryScriptImportInChildFromParent _ => SevWarning
  | scriptSrcCannotBeEmpty => SevError
  | referencedFileDoesNotExist => SevError
  | scriptImportCaseMismatch _ => SevWarning
  | otherDiagnostic _ _ => SevError
  end.

Record BsDiagnostic := mkDiagnostic {
  info : DiagnosticInfo;
  range : Range;
  file : FileId
}.

(** ** Files *)

(** The capabilities a scope uses of either kind of file. *)
Record FileCommon := mkFileCommon {
  file_id : FileId;
  callables : list Callable;
  functionCalls : list FunctionCall;
  functionScopes : list FunctionScope;
  (** the method [getFunctionScopeAtPosition] of the file, whose body is not
      part of the sources: [None] is [undefined] *)
  getFunctionScopeAtPosition : Position → option FunctionScope;
  (** [parser.namespaceStatements] and [parser.classStatements] *)
  namespaceStatements : list NamespaceStatement;
  classStatements : list ClassStatement;
  (** the result of the file's own [getDiagnostics()] *)
  file_getDiagnostics : list BsDiagnostic
}.

(** A script import of a descriptor. Of [sourceFile], the descriptor the
    import was read from, the code reads the component name. *)
Record FileReference := mkFileReference {
  ref_pkgPath : string;
  ref_text : string;
  filePathRange : Range;
  sourceFile_componentName : option string
}.

(** A descriptor file. [xml_parent] is the resolved parent, by value: the
    chain of resolved parents as it stands when the file is read. *)
Inductive XmlFile := mkXmlFile {
  xml_common : FileCommon;
  componentName : option string;
  parentName : option string;
  parentNameRange : option Range;
  scriptTagImports : list FileReference;
  xml_parent : option XmlFile
}.

Inductive File :=
| IsBrsFile (f : FileCommon)
| IsXmlFile (f : XmlFile).

Definition file_common (f : File) : FileCommon :=
  match f with
  | IsBrsFile c => c
  | IsXmlFile x => xml_common x
  end.

Definition file_pathAbsolute (f : File) : string := pathAbsolute (file_id (file_common f)).
Definition file_pkgPath (f : File) : string := pkgPath (file_id (file_common f)).

(** ** Scopes and the heap of scopes *)

Record NamespaceContainer := mkNamespaceContainer {
  fullName : string;
  lastPartName : string;
  statements : list Statement;
  ns_classStatements : JsObj ClassStatement;
  ns_functionStatements : JsObj FunctionStatement;
  (** child containers, each by the key it has in the lookup: the lookup
      owns the container objects and this dictionary aliases them *)
  namespaces : JsObj string
}.

Record Scope := mkScope {
  matcher : File → bool;
  _isValidated : bool;
  _namespaceLookup : option (JsObj NamespaceContainer);
  _classLookup : option (JsObj ClassStatement);
  diagnostics : list BsDiagnostic;
  files : JsObj File;
  parentScope : option ScopeId;
  (** the parents this scope registered an "invalidated" callback with,
      and the handle of each callback *)
  parentScopeHandles : list (ScopeId * nat);
  (** the "invalidated" callbacks registered with this scope's emitter, in
      registration order: the handle and the scope the callback marks dirty *)
  listeners : list (nat * ScopeId);
  (** the descriptor of an [XmlScope]; [None] for a plain [Scope] *)
  xmlFile : option XmlFile
}.

Inductive Event :=
| ScopeEvent (emitter : ScopeId) (eventName : string)
| XmlFileEvent (emitter : FileId) (eventName : string).

(** The program as the scopes see it. *)
Record World := mkWorld {
  scopes : gmap ScopeId Scope;
  (** [program.platformScope] *)
  platformScope : ScopeId;
  nextHandle : nat;
  (** every event emitted so far, oldest first *)
  emitted : list Event
}.

(** Code of the repository the scope calls and the sources do not contain. *)
Class Collaborators := {
  (** the table [platformCallableMap], keyed by lower-cased name *)
  platformCallableMap : gmap string Callable;
  (** [String.prototype.localeCompare], whose order depends on the locale *)
  localeCompare : string → string → comparison;
  (** [util.standardizePath] *)
  standardizePath : string → string;
  (** [util.diagnosticIsSuppressed] *)
  diagnosticIsSuppressed : BsDiagnostic → bool;
  (** the diagnostics [BsClassValidator.validate] finds for a scope *)
  BsClassValidator_diagnostics : World → ScopeId → list BsDiagnostic;
  (** [XmlFile.doesReferenceFile] *)
  doesReferenceFile : XmlFile → File → bool
}.

Definition with_isValidated_raw (v : bool) (s : Scope) : Scope :=
  mkScope (matcher s) v (_namespaceLookup s) (_classLookup s) (diagnostics s)
          (files s) (parentScope s) (parentScopeHandles s) (listeners s) (xmlFile s).

Definition with_namespaceLookup (l : option (JsObj NamespaceContainer)) (s : Scope) : Scope :=
  mkScope (matcher s) (_isValidated s) l (_classLookup s) (diagnostics s)
          (files s) (parentScope s) (parentScopeHandles s) (listeners s) (xmlFile s).

Definition with_classLookup (l : option (JsObj ClassStatement)) (s : Scope) : Scope :=
  mkScope (matcher s) (_isValidated s) (_namespaceLookup s) l (diagnostics s)
          (files s) (parentScope s) (parentScopeHandles s) (listeners s) (xmlFile s).

Definition with_diagnostics (d : list BsDiagnostic) (s : Scope) : Scope :=
  mkScope (matcher s) (_isValidated s) (_namespaceLookup s) (_classLookup s) d
          (files s) (parentScope s) (parentScopeHandles s) (listeners s) (xmlFile s).

Definition with_files (f : JsObj File) (s : Scope) : Scope :=
  mkScope (matcher s) (_isValidated s) (_namespaceLookup s) (_classLookup s) (diagnostics s)
          f (parentScope s) (parentScopeHandles s) (listeners s) (xmlFile s).

Definition with_parentScope (p : option ScopeId) (s : Scope) : Scope :=
  mkScope (matcher s) (_isValidated s) (_namespaceLookup s) (_classLookup s) (diagnostics s)
          (files s) p (parentScopeHandles s) (listeners s) (xmlFile s).

Definition with_parentScopeHandles (h : list (ScopeId * nat)) (s : Scope) : Scope :=
  mkScope (matcher s) (_isValidated s) (_namespaceLookup s) (_classLookup s) (diagnostics s)
          (files s) (parentScope s) h (listeners s) (xmlFile s).

Definition with_listeners (l : list (nat * ScopeId)) (s : Scope) : Scope :=
  mkScope (matcher s) (_isValidated s) (_namespaceLookup s) (_classLookup s) (diagnostics s)
          (files s) (parentScope s) (parentScopeHandles s) l (xmlFile s).

Definition with_xmlFile (x : option XmlFile) (s : Scope) : Scope :=
  mkScope (matcher s) (_isValidated s) (_namespaceLookup s) (_classLookup s) (diagnostics s)
          (files s) (parentScope s) (parentScopeHandles s) (listeners s) x.

(** [this.diagnostics.push(...ds)] *)
Definition push_diagnostics (ds : list BsDiagnostic) (s : Scope) : Scope :=
  with_diagnostics (diagnostics s ++ ds) s.

(** Mutation of the scope object [id] in place. *)
Definition modify (id : ScopeId) (f : Scope → Scope) (w : World) : World :=
  mkWorld (alter f id (scopes w)) (platformScope w) (nextHandle w) (emitted w).

Definition log_event (e : Event) (w : World) : World :=
  mkWorld (scopes w) (platformScope w) (nextHandle w) (emitted w ++ [e]).

(** ** [Scope]: the validation flag and the cached lookups *)

(** The getter [isValidated]. *)
Definition isValidated (s : Scope) : bool := _isValidated s.

(** The setter [isValidated]: stores the value and deletes both lookups. *)
Definition set_isValidated (value : bool) (s : Scope) : Scope :=
  with_classLookup None (with_namespaceLookup None (with_isValidated_raw value s)).

(** The constructor. The field initialisers run first (the lookups are [{}],
    the lists empty), then the body assigns [isValidated = false]. *)
Definition new_Scope (matcher : File → bool) : Scope :=
  set_isValidated false
    (mkScope matcher false (Some obj_empty) (Some obj_empty) [] obj_empty None [] [] None).

(** The constructor of [XmlScope]: a scope named after the pkgPath of the
    descriptor, whose matcher asks the descriptor (see [matches]). *)
Definition new_XmlScope (xmlFile : XmlFile) : Scope :=
  with_xmlFile (Some xmlFile) (new_Scope (λ _, false)).

(** ** [Scope]: the derived lookups *)

(** [getNamespaceStatements] *)
Definition getNamespaceStatements (s : Scope) : list NamespaceStatement :=
  flat_map (λ kf, namespaceStatements (file_common kf.2)) (obj_entries (files s)).

Definition new_NamespaceContainer (loopName part : string) : NamespaceContainer :=
  mkNamespaceContainer loopName part [] obj_empty obj_empty obj_empty.

(** One turn of the loop over [nameParts]: the state is [loopName] and the
    lookup under construction. *)
Definition addNamespacePart
    (st : option string * JsObj NamespaceContainer) (part : string)
    : option string * JsObj NamespaceContainer :=
  let loopName :=
    match st.1 with
    | None => part
    | Some l => l +:+ "." +:+ part
    end in
  let lowerLoopName := toLowerCase loopName in
  (Some loopName,
   match obj_get st.2 lowerLoopName with
   | Some _ => st.2
   | None => obj_set lowerLoopName (new_NamespaceContainer loopName part) st.2
   end).

(** One turn of the loop over the statements of a namespace body. *)
Definition addNamespaceStatement (ns : NamespaceContainer) (statement : Statement)
    : NamespaceContainer :=
  match statement with
  | SClass c =>
      mkNamespaceContainer (fullName ns) (lastPartName ns) (statements ns)
        (obj_set (toLowerCase (class_name_text c)) c (ns_classStatements ns))
        (ns_functionStatements ns) (namespaces ns)
  | SFunction f =>
      mkNamespaceContainer (fullName ns) (lastPartName ns) (statements ns)
        (ns_classStatements ns)
        (obj_set (toLowerCase (function_name_text f)) f (ns_functionStatements ns))
        (namespaces ns)
  | SOther _ => ns
  end.

(** The body of the first loop of [buildNamespaceLookup], for one namespace
    statement. Reading [ns.statements] of a missing entry throws. *)
Definition addNamespace
    (namespaceLookup : JsObj NamespaceContainer) (namespace : NamespaceStatement)
    : option (JsObj NamespaceContainer) :=
  let name := namespace_name namespace in
  let nameParts := split "." name in
  let namespaceLookup := (foldl addNamespacePart (None, namespaceLookup) nameParts).2 in
  ns ← obj_get namespaceLookup (toLowerCase name);
  let ns :=
    mkNamespaceContainer (fullName ns) (lastPartName ns)
      (statements ns ++ body_statements namespace)
      (ns_classStatements ns) (ns_functionStatements ns) (namespaces ns) in
  let ns := foldl addNamespaceStatement ns (body_statements namespace) in
  Some (obj_set (toLowerCase name) ns namespaceLookup).

(** The name of the parent of a container, lower-cased: [None] when the
    full name has a single part. *)
Definition parentKey (ns : NamespaceContainer) : option string :=
  let parts := split "." (fullName ns) in
  if bool_decide (1 < List.length parts)
  then Some (toLowerCase (join "." (pop parts)))
  else None.

(** The body of the second loop of [buildNamespaceLookup], for one key.
    Reading [namespaces] of a missing parent throws. *)
Definition linkNamespace
    (namespaceLookup : JsObj NamespaceContainer) (key : string)
    : option (JsObj NamespaceContainer) :=
  ns ← obj_get namespaceLookup key;
  match parentKey ns with
  | Some parentLower =>
      parent ← obj_get namespaceLookup parentLower;
      Some (obj_set parentLower
              (mkNamespaceContainer (fullName parent) (lastPartName parent)
                 (statements parent) (ns_classStatements parent)
                 (ns_functionStatements parent)
                 (obj_set (toLowerCase (lastPartName ns)) key (namespaces parent)))
              namespaceLookup)
  | None => Some namespaceLookup
  end.

(** A loop whose body may throw. *)
Definition foldM {A B} (f : A → B → option A) (a : A) (l : list B) : option A :=
  foldl (λ acc b, acc ≫= λ a, f a b) (Some a) l.

(** [buildNamespaceLookup], from the namespace statements of the member
    files. The second loop visits the keys the first one created. *)
Definition buildNamespaceLookupOf (namespaces : list NamespaceStatement)
    : option (JsObj NamespaceContainer) :=
  namespaceLookup ← foldM addNamespace obj_empty namespaces;
  foldM linkNamespace namespaceLookup (obj_keys namespaceLookup).

Definition buildNamespaceLookup (s : Scope) : option (JsObj NamespaceContainer) :=
  buildNamespaceLookupOf (getNamespaceStatements s).

(** [buildClassLookup] *)
Definition buildClassLookup (s : Scope) : JsObj ClassStatement :=
  foldl (λ lookup cls, obj_set (toLowerCase (class_getName cls BrighterScript)) cls lookup)
    obj_empty
    (flat_map (λ kf, classStatements (file_common kf.2)) (obj_entries (files s))).

(** The getter [namespaceLookup]: builds and caches the lookup when absent. *)
Definition get_namespaceLookup (s : Scope) : option (JsObj NamespaceContainer * Scope) :=
  match _namespaceLookup s with
  | Some l => Some (l, s)
  | None => l ← buildNamespaceLookup s; Some (l, with_namespaceLookup (Some l) s)
  end.

(** The getter [classLookup]. *)
Definition get_classLookup (s : Scope) : JsObj ClassStatement * Scope :=
  match _classLookup s with
  | Some l => (l, s)
  | None => let l := buildClassLookup s in (l, with_classLookup (Some l) s)
  end.


(** ** [Scope]: callables *)

(** [getOwnCallables] *)
Definition getOwnCallables (this : ScopeId) (s : Scope) : list CallableContainer :=
  flat_map (λ kf, (λ c, mkContainer c this) <$> callables (file_common kf.2))
    (obj_entries (files s)).

(** [getAllCallables]: own callables, then those of the parent chain. The
    recursion follows [parentScope]; [fuel] bounds its depth. *)
Fixpoint getAllCallables (fuel : nat) (w : World) (this : ScopeId)
    : option (list CallableContainer) :=
  match fuel with
  | O => None
  | S fuel =>
      s ← scopes w !! this;
      match parentScope s with
      | Some p =>
          inherited ← getAllCallables fuel w p;
          Some (getOwnCallables this s ++ inherited)
      | None => Some (getOwnCallables this s)
      end
  end.

(** [getCallableByName]: the inner option is [undefined] *)
Definition getCallableByName (fuel : nat) (w : World) (this : ScopeId) (name : string)
    : option (option Callable) :=
  let lowerName := toLowerCase name in
  callables ← getAllCallables fuel w this;
  Some (callable <$>
        List.find (λ c, String.eqb (toLowerCase (getName (callable c) BrighterScript)) lowerName)
          callables).

(** [Array.prototype.sort], which is stable: each element is inserted
    behind the elements that do not compare greater. *)
Fixpoint insertSorted {A} (cmp : A → A → comparison) (x : A) (l : list A) : list A :=
  match l with
  | [] => [x]
  | y :: l' =>
      match cmp x y with
      | Lt => x :: y :: l'
      | _ => y :: insertSorted cmp x l'
      end
  end.

Definition sort {A} (cmp : A → A → comparison) (l : list A) : list A :=
  foldl (λ sorted x, insertSorted cmp x sorted) [] l.

(** The comparator of [validate]: by path, then by name. *)
Definition compareCallables `{Collaborators} (a b : CallableContainer) : comparison :=
  match localeCompare (pathAbsolute (callable_file (callable a)))
                      (pathAbsolute (callable_file (callable b))) with
  | Eq => localeCompare (callable_name (callable a)) (callable_name (callable b))
  | c => c
  end.

(** Modelled from the spec: [util.getCallableContainersByLowerName] is not
    part of the sources. It buckets the callables by lower-cased name into a
    map from name to list, keeping their order. *)
Definition getCallableContainersByLowerName (callables : list CallableContainer)
    : JsObj (list CallableContainer) :=
  foldl (λ result container,
      let lowerName := toLowerCase (callable_name (callable container)) in
      obj_set lowerName (default [] (obj_get result lowerName) ++ [container]) result)
    obj_empty callables.

(** ** [Scope.diagnosticFindDuplicateFunctionDeclarations] *)

Record Partition := mkPartition {
  platformCallables : list CallableContainer;
  nonPlatformCallables : list CallableContainer;
  ownCallables : list CallableContainer;
  ancestorNonPlatformCallables : list CallableContainer
}.

(** One turn of the loop that sorts the containers of a bucket. *)
Definition partitionStep (this platform : ScopeId) (p : Partition)
    (container : CallableContainer) : Partition :=
  if bool_decide (scope container = platform) then
    mkPartition (platformCallables p ++ [container]) (nonPlatformCallables p)
      (ownCallables p) (ancestorNonPlatformCallables p)
  else if bool_decide (scope container = this) then
    mkPartition (platformCallables p) (nonPlatformCallables p ++ [container])
      (ownCallables p ++ [container]) (ancestorNonPlatformCallables p)
  else
    mkPartition (platformCallables p) (nonPlatformCallables p ++ [container])
      (ownCallables p) (ancestorNonPlatformCallables p ++ [container]).

Definition partitionCallables (this platform : ScopeId)
    (callableContainers : list CallableContainer) : Partition :=
  foldl (partitionStep this platform) (mkPartition [] [] [] []) callableContainers.

Definition overridesAncestorDiagnostic (container shadowedCallable : CallableContainer)
    : BsDiagnostic :=
  mkDiagnostic
    (overridesAncestorFunction
       (callable_name (callable container))
       (scope container)
       (pkgPath (callable_file (callable shadowedCallable)))
       (scope shadowedCallable))
    (callable_nameRange (callable container))
    (callable_file (callable container)).

Definition duplicateFunctionDiagnostic (callableContainer : CallableContainer)
    : BsDiagnostic :=
  let callable := callable callableContainer in
  mkDiagnostic
    (duplicateFunctionImplementation (callable_name callable) (scope callableContainer))
    (Range_create
       (line (start (callable_nameRange callable)))
       (character (start (callable_nameRange callable)))
       (line (start (callable_nameRange callable)))
       (character (end_ (callable_nameRange callable))))
    (callable_file callable).

(** The info diagnostics about a child shadowing functions of a parent. *)
Definition overridesAncestorDiagnostics (lowerName : string) (p : Partition)
    : list BsDiagnostic :=
  if (bool_decide (0 < List.length (ownCallables p))
      && bool_decide (0 < List.length (ancestorNonPlatformCallables p)))%bool
  then
    flat_map (λ container,
        if bool_decide (lowerName ≠ "init") then
          match last (ancestorNonPlatformCallables p) with
          | Some shadowedCallable => [overridesAncestorDiagnostic container shadowedCallable]
          | None => []
          end
        else [])
      (ownCallables p)
  else [].

(** The error diagnostics about duplicate functions in the same scope. *)
Definition duplicateFunctionDiagnostics (p : Partition) : list BsDiagnostic :=
  if bool_decide (1 < List.length (ownCallables p))
  then duplicateFunctionDiagnostic <$> ownCallables p
  else [].

(** The body of the loop over the buckets. *)
Definition bucketDiagnostics (this platform : ScopeId)
    (lowerName : string) (callableContainers : list CallableContainer)
    : list BsDiagnostic :=
  let p := partitionCallables this platform callableContainers in
  overridesAncestorDiagnostics lowerName p ++ duplicateFunctionDiagnostics p.

Definition diagnosticFindDuplicateFunctionDeclarations (this platform : ScopeId)
    (callableContainersByLowerName : JsObj (list CallableContainer))
    : list BsDiagnostic :=
  flat_map (λ bucket, bucketDiagnostics this platform bucket.1 bucket.2)
    (obj_entries callableContainersByLowerName).

(** ** [Scope]: the checks run on each member file *)

(** Modelled from the spec: [FunctionScope.getVariableByName] is not part of
    the sources. It finds the variable whose name, lower-cased, is the name
    asked for. *)
Definition getVariableByName (fs : FunctionScope) (name : string)
    : option VariableDeclaration :=
  List.find (λ v, String.eqb (toLowerCase (var_name v)) name) (variableDeclarations fs).

(** [callablesByLowerName[lowerName]] and then its first item, if any *)
Definition firstCallable (callablesByLowerName : JsObj (list CallableContainer))
    (lowerName : string) : option CallableContainer :=
  match obj_get callablesByLowerName lowerName with
  | Some callablesWithThisName => head callablesWithThisName
  | None => None
  end.

(** The body of the loop of [diagnosticDetectCallsToUnknownFunctions]. *)
Definition callToUnknownFunctionDiagnostic (this : ScopeId) (file : File)
    (callablesByLowerName : JsObj (list CallableContainer)) (expCall : FunctionCall)
    : option BsDiagnostic :=
  let lowerName := toLowerCase (call_name expCall) in
  let scope := getFunctionScopeAtPosition (file_common file) (start (call_nameRange expCall)) in
  match scope ≫= λ scope, getVariableByName scope lowerName with
  | None =>
      match firstCallable callablesByLowerName lowerName with
      | None =>
          Some (mkDiagnostic (callToUnknownFunction (call_name expCall) this)
                  (call_nameRange expCall) (file_id (file_common file)))
      | Some _ => None
      end
  | Some _ => None
  end.

Definition diagnosticDetectCallsToUnknownFunctions (this : ScopeId) (file : File)
    (callablesByLowerName : JsObj (list CallableContainer)) : list BsDiagnostic :=
  omap (callToUnknownFunctionDiagnostic this file callablesByLowerName)
    (functionCalls (file_common file)).

(** The loop over the parameters: [(minParams, maxParams)]. *)
Definition countParams (params : list Param) : nat * nat :=
  foldl (λ mm param,
      let maxParams := S mm.2 in
      if bool_decide (isOptional param = false) then (S mm.1, maxParams) else (mm.1, maxParams))
    (0, 0) params.

Definition minMaxParamsText (minParams maxParams : nat) : ParamsText :=
  if bool_decide (minParams = maxParams) then TextNumber maxParams
  else TextString (pretty minParams +:+ "-" +:+ pretty maxParams).

(** The body of the loop of [diagnosticDetectFunctionCallsWithWrongParamCount]. *)
Definition mismatchArgumentCountDiagnostic (file : File)
    (callableContainersByLowerName : JsObj (list CallableContainer)) (expCall : FunctionCall)
    : option BsDiagnostic :=
  match firstCallable callableContainersByLowerName (toLowerCase (call_name expCall)) with
  | Some knownCallableContainer =>
      let '(minParams, maxParams) := countParams (params (callable knownCallableContainer)) in
      let expCallArgCount := List.length (args expCall) in
      if (bool_decide (maxParams < List.length (args expCall))
          || bool_decide (List.length (args expCall) < minParams))%bool
      then Some (mkDiagnostic
                   (mismatchArgumentCount (minMaxParamsText minParams maxParams) expCallArgCount)
                   (call_nameRange expCall) (file_id (file_common file)))
      else None
  | None => None
  end.

Definition diagnosticDetectFunctionCallsWithWrongParamCount (file : File)
    (callableContainersByLowerName : JsObj (list CallableContainer)) : list BsDiagnostic :=
  omap (mismatchArgumentCountDiagnostic file callableContainersByLowerName)
    (functionCalls (file_common file)).

Definition shadowedLocalVarDiagnostic `{Collaborators} (file : File)
    (callableContainerMap : JsObj (list CallableContainer))
    (varDeclaration : VariableDeclaration) : option BsDiagnostic :=
  let lowerVarName := toLowerCase (var_name varDeclaration) in
  let here d := Some (mkDiagnostic d (var_nameRange varDeclaration) (file_id (file_common file))) in
  if instanceof_FunctionType (var_type varDeclaration) then
    match platformCallableMap !! lowerVarName, obj_get callableContainerMap lowerVarName with
    | Some _, _ => here (localVarFunctionShadowsParentFunction "stdlib")
    | None, Some _ => here (localVarFunctionShadowsParentFunction "scope")
    | None, None => None
    end
  else
    match obj_get callableContainerMap lowerVarName, platformCallableMap !! lowerVarName with
    | Some _, None => here localVarShadowedByScopedFunction
    | _, _ => None
    end.

(** [diagnosticDetectShadowedLocalVars] *)
Definition diagnosticDetectShadowedLocalVars `{Collaborators} (file : File)
    (callableContainerMap : JsObj (list CallableContainer)) : list BsDiagnostic :=
  flat_map (λ scope, omap (shadowedLocalVarDiagnostic file callableContainerMap)
                       (variableDeclarations scope))
    (functionScopes (file_common file)).

(** [diagnosticDetectFunctionCollisions] *)
Definition diagnosticDetectFunctionCollisions `{Collaborators} (file : File)
    : list BsDiagnostic :=
  omap (λ func,
      match platformCallableMap !! toLowerCase (getName func BrighterScript) with
      | Some _ => Some (mkDiagnostic scopeFunctionShadowedByBuiltInFunction
                          (callable_nameRange func) (file_id (file_common file)))
      | None => None
      end)
    (callables (file_common file)).

(** ** [Scope]: events and the parent link *)

(** [emit(name)]: the callbacks registered for "invalidated" run in
    registration order; each one assigns [isValidated = false] on the scope
    that registered it. *)
Definition emit (this : ScopeId) (name : string) (w : World) : option World :=
  s ← scopes w !! this;
  let w := log_event (ScopeEvent this name) w in
  Some (if bool_decide (name = "invalidated")
        then foldl (λ w l, modify l.2 (set_isValidated false) w) w (listeners s)
        else w).

(** [parent.on('invalidated', () => { child.isValidated = false })]: the
    world with the callback registered, and the handle that disconnects it *)
Definition on_invalidated (parent child : ScopeId) (w : World) : World * nat :=
  let handle := nextHandle w in
  (mkWorld (alter (λ s, with_listeners (listeners s ++ [(handle, child)]) s) parent (scopes w))
           (platformScope w) (S handle) (emitted w),
   handle).

(** Calling the function [on] returned. *)
Definition disconnect (emitter : ScopeId) (handle : nat) (w : World) : World :=
  modify emitter (λ s, with_listeners (filter (λ l, l.1 ≠ handle) (listeners s)) s) w.

(** [attachParentScope] *)
Definition attachParentScope (this parent : ScopeId) (w : World) : option World :=
  let w := modify this (with_parentScope (Some parent)) w in
  let '(w, handle) := on_invalidated parent this w in
  let w := modify this (with_parentScopeHandles [(parent, handle)]) w in
  p ← scopes w !! parent;
  Some (if negb (isValidated p) then modify this (set_isValidated false) w else w).

(** [detachParent] *)
Definition detachParent (this : ScopeId) (w : World) : option World :=
  s ← scopes w !! this;
  let w := foldl (λ w ph, disconnect ph.1 ph.2 w) w (parentScopeHandles s) in
  Some (if bool_decide (platformScope w ≠ this)
        then modify this (with_parentScope (Some (platformScope w))) w
        else w).

(** ** [Scope]: membership *)

(** [getFile] *)
Definition getFile `{Collaborators} (s : Scope) (filePath : string) : option File :=
  obj_get (files s) (standardizePath filePath).

(** [hasFile] *)
Definition hasFile (s : Scope) (pathAbsolute : string) : bool :=
  match obj_get (files s) pathAbsolute with Some _ => true | None => false end.


(** [removeFile] *)
Definition removeFile `{Collaborators} (this : ScopeId) (file : File) (w : World)
    : option World :=
  let w := modify this (set_isValidated false) w in
  s ← scopes w !! this;
  match getFile s (file_pathAbsolute file) with
  | None => Some w
  | Some ctxFile =>
      let w := modify this
                 (λ s, with_files (obj_delete (file_pathAbsolute file) (files s)) s) w in
      emit this "invalidated" w
  end.

(** [addOrReplaceFile] *)
Definition addOrReplaceFile `{Collaborators} (this : ScopeId) (file : File) (w : World)
    : option World :=
  let w := modify this (set_isValidated false) w in
  s ← scopes w !! this;
  w ← (match obj_get (files s) (file_pathAbsolute file) with
       | Some _ => removeFile this file w
       | None => Some w
       end);
  Some (modify this (λ s, with_files (obj_set (file_pathAbsolute file) file (files s)) s) w).

(** The membership predicate: the [matcher] given to the constructor, which
    for a descriptor scope asks the descriptor. *)
Definition matches `{Collaborators} (s : Scope) (file : File) : bool :=
  match xmlFile s with
  | Some x => doesReferenceFile x file
  | None => matcher s file
  end.

(** The handler [attachProgram] registers for the program's "file-added". *)
Definition onFileAdded `{Collaborators} (this : ScopeId) (file : File) (w : World)
    : option World :=
  s ← scopes w !! this;
  if matches s file then addOrReplaceFile this file w else Some w.

(** The handler [attachProgram] registers for the program's "file-removed". *)
Definition onFileRemoved `{Collaborators} (this : ScopeId) (file : File) (w : World)
    : option World :=
  s ← scopes w !! this;
  if hasFile s (file_pathAbsolute file) then removeFile this file w else Some w.

(** ** [Scope.getDiagnostics] *)



(** ** [XmlScope]: the checks of a descriptor scope *)

Fixpoint ancestors (x : XmlFile) : list XmlFile :=
  match x with
  | mkXmlFile _ _ _ _ _ (Some parent) => parent :: ancestors parent
  | mkXmlFile _ _ _ _ _ None => []
  end.

(** Modelled from the spec: [XmlFile.getAncestorScriptTagImports] is not
    part of the sources. It is the concatenated script imports of all
    transitive resolved parents, parents first. *)
Definition getAncestorScriptTagImports (x : XmlFile) : list FileReference :=
  flat_map scriptTagImports (ancestors x).

(** The lookup from pkgPath to the first import of that path. *)
Definition ancestorImportLookup (parentScriptImports : list FileReference)
    : JsObj FileReference :=
  foldl (λ lookup parentScriptImport,
      match obj_get lookup (ref_pkgPath parentScriptImport) with
      | Some _ => lookup
      | None => obj_set (ref_pkgPath parentScriptImport) parentScriptImport lookup
      end)
    obj_empty parentScriptImports.

Definition duplicateAncestorScriptImportDiagnostic (x : XmlFile)
    (lookup : JsObj FileReference) (scriptImport : FileReference) : option BsDiagnostic :=
  match obj_get lookup (ref_pkgPath scriptImport) with
  | Some ancestorScriptImport =>
      let ancestorComponentName := sourceFile_componentName ancestorScriptImport in
      Some (mkDiagnostic (unnecessaryScriptImportInChildFromParent ancestorComponentName)
              (filePathRange scriptImport) (file_id (xml_common x)))
  | None => None
  end.

(** [XmlScope.diagnosticDetectDuplicateAncestorScriptImports] *)
Definition diagnosticDetectDuplicateAncestorScriptImports (x : XmlFile)
    : list BsDiagnostic :=
  match xml_parent x with
  | Some _ =>
      let parentScriptImports := getAncestorScriptTagImports x in
      let lookup := ancestorImportLookup parentScriptImports in
      omap (duplicateAncestorScriptImportDiagnostic x lookup) (scriptTagImports x)
  | None => []
  end.

(** [getFileByRelativePath] *)
Definition getFileByRelativePath (s : Scope) (relativePath : string) : option File :=
  snd <$> List.find
    (λ kf, String.eqb (toLowerCase (file_pkgPath kf.2)) (toLowerCase relativePath))
    (obj_entries (files s)).

(** [XmlScope.diagnosticValidateScriptImportPaths] *)
Definition diagnosticValidateScriptImportPaths (s : Scope) (x : XmlFile)
    : list BsDiagnostic :=
  omap (λ scriptImport,
      match getFileByRelativePath s (ref_pkgPath scriptImport) with
      | None =>
          let dInfo :=
            if bool_decide (String.length (trim (ref_text scriptImport)) = 0)
            then scriptSrcCannotBeEmpty
            else referencedFileDoesNotExist in
          Some (mkDiagnostic dInfo (filePathRange scriptImport) (file_id (xml_common x)))
      | Some referencedFile =>
          if bool_decide (ref_pkgPath scriptImport ≠ file_pkgPath referencedFile)
          then Some (mkDiagnostic (scriptImportCaseMismatch (file_pkgPath referencedFile))
                       (filePathRange scriptImport) (file_id (xml_common x)))
          else None
      end)
    (scriptTagImports x).

(** ** [Scope.validate] and [XmlScope.validate] *)

(** Modelled from the spec: [BsClassValidator] is not part of the sources.
    It walks [classLookup], which the getter builds and caches, and its
    diagnostics are pushed onto the scope's. *)
Definition validateClasses `{Collaborators} (this : ScopeId) (w : World) : World :=
  modify this
    (λ s, push_diagnostics (BsClassValidator_diagnostics w this) (get_classLookup s).2) w.

(** The body of the loop over the member files. *)
Definition fileDiagnostics `{Collaborators} (this : ScopeId) (file : File)
    (callableContainerMap : JsObj (list CallableContainer)) : list BsDiagnostic :=
  diagnosticDetectCallsToUnknownFunctions this file callableContainerMap
  ++ diagnosticDetectFunctionCallsWithWrongParamCount file callableContainerMap
  ++ diagnosticDetectShadowedLocalVars file callableContainerMap
  ++ diagnosticDetectFunctionCollisions file.

(** The first step of [Scope.validate]: "validate our parent before we
    validate ourself". [validateParent] is the method [validate] of the
    parent, whichever class the parent has. *)
Definition validateParentFirst
    (validateParent : ScopeId → bool → World → option World)
    (s : Scope) (force : bool) (w : World) : option World :=
  match parentScope s with
  | Some parent =>
      p ← scopes w !! parent;
      if negb (isValidated p) then validateParent parent force w else Some w
  | None => Some w
  end.

(** The rest of [Scope.validate], from clearing the diagnostics on. *)
Definition validateSelf `{Collaborators} (fuel : nat) (this : ScopeId) (w : World)
    : option World :=
  let w := modify this (with_diagnostics []) w in
  callables ← getAllCallables fuel w this;
  let callables := sort compareCallables callables in
  let callableContainerMap := getCallableContainersByLowerName callables in
  let w := modify this
             (push_diagnostics
                (diagnosticFindDuplicateFunctionDeclarations this (platformScope w)
                   callableContainerMap)) w in
  let w := validateClasses this w in
  s ← scopes w !! this;
  let w := foldl (λ w kf,
               modify this (push_diagnostics (fileDiagnostics this kf.2 callableContainerMap)) w)
             w (obj_entries (files s)) in
  Some (modify this (set_isValidated true) w).

(** [Scope.validate] *)
Definition Scope_validate `{Collaborators}
    (validateParent : ScopeId → bool → World → option World)
    (fuel : nat) (this : ScopeId) (force : bool) (w : World) : option World :=
  s ← scopes w !! this;
  if (isValidated s && negb force)%bool then Some w
  else
    w ← validateParentFirst validateParent s force w;
    validateSelf fuel this w.

(** [XmlScope.validate], which takes no argument and calls
    [super.validate()] with the default [force = false]. *)
Definition XmlScope_validate `{Collaborators}
    (validateParent : ScopeId → bool → World → option World)
    (fuel : nat) (this : ScopeId) (x : XmlFile) (w : World) : option World :=
  s ← scopes w !! this;
  if negb (isValidated s) then
    w ← Scope_validate validateParent fuel this false w;
    let w := modify this (set_isValidated false) w in
    let w := modify this
               (push_diagnostics (diagnosticDetectDuplicateAncestorScriptImports x)) w in
    s ← scopes w !! this;
    let w := modify this (push_diagnostics (diagnosticValidateScriptImportPaths s x)) w in
    Some (modify this (set_isValidated true) w)
  else Some w.

(** [scope.validate(force)], dispatched on the class of the scope. *)
Fixpoint validate `{Collaborators} (fuel : nat) (this : ScopeId) (force : bool) (w : World)
    : option World :=
  match fuel with
  | O => None
  | S fuel =>
      s ← scopes w !! this;
      match xmlFile s with
      | Some x => XmlScope_validate (validate fuel) fuel this x w
      | None => Scope_validate (validate fuel) fuel this force w
      end
  end.

(** ** [XmlScope]: resolution of the parent *)

Definition xml_with_parent (parent : option XmlFile) (x : XmlFile) : XmlFile :=
  mkXmlFile (xml_common x) (componentName x) (parentName x) (parentNameRange x)
            (scriptTagImports x) parent.

(** Modelled from the spec: [Program.getScopeByName] is not part of the
    sources. The program keeps its scopes in a registry keyed by scope
    name. *)
Definition getScopeByName (w : World) (name : string) : option Scope :=
  scopes w !! name.

(** [handleXmlFileParentAttach] *)
Definition handleXmlFileParentAttach (this : ScopeId) (file : XmlFile) (w : World)
    : option World :=
  match getScopeByName w (pkgPath (file_id (xml_common file))) with
  | Some parentScope => attachParentScope this (pkgPath (file_id (xml_common file))) w
  | None => Some w
  end.

(** Modelled from the spec: [XmlFile.attachParent] is not part of the
    sources. It mutates the resolved parent pointer and emits
    "attach-parent", which the scope of the descriptor handles. *)
Definition XmlFile_attachParent (this : ScopeId) (parent : XmlFile) (w : World)
    : option World :=
  s ← scopes w !! this;
  x ← xmlFile s;
  let w := modify this (with_xmlFile (Some (xml_with_parent (Some parent) x))) w in
  let w := log_event (XmlFileEvent (file_id (xml_common x)) "attach-parent") w in
  handleXmlFileParentAttach this parent w.

(** Modelled from the spec: [XmlFile.detachParent] is not part of the
    sources. It clears the resolved parent pointer and emits
    "detach-parent", which the scope of the descriptor handles. *)
Definition XmlFile_detachParent (this : ScopeId) (w : World) : option World :=
  s ← scopes w !! this;
  x ← xmlFile s;
  let w := modify this (with_xmlFile (Some (xml_with_parent None x))) w in
  let w := log_event (XmlFileEvent (file_id (xml_common x)) "detach-parent") w in
  detachParent this w.

(** The condition of [addParentIfMatch]. *)
Definition addParentMatches (x : XmlFile) (file : File) : option XmlFile :=
  match file with
  | IsXmlFile f =>
      if (match xml_parent x with Some _ => false | None => true end
          && truthy (parentName x)
          && bool_decide (componentName f = parentName x))%bool
      then Some f else None
  | IsBrsFile _ => None
  end.

(** [XmlScope.addParentIfMatch] *)
Definition addParentIfMatch (this : ScopeId) (file : File) (w : World) : option World :=
  s ← scopes w !! this;
  x ← xmlFile s;
  match addParentMatches x file with
  | Some f =>
      let w := modify this (set_isValidated false) w in
      XmlFile_attachParent this f w
  | None => Some w
  end.

(** The condition of [onProgramFileRemove]. *)
Definition removedFileIsParent (x : XmlFile) (file : File) : bool :=
  match file with
  | IsXmlFile f =>
      (truthy (componentName f)
       && truthy (parentName x)
       && bool_decide (toLowerCase <$> componentName f = toLowerCase <$> parentName x))%bool
  | IsBrsFile _ => false
  end.

(** [XmlScope.onProgramFileRemove] *)
Definition onProgramFileRemove (this : ScopeId) (file : File) (w : World) : option World :=
  s ← scopes w !! this;
  x ← xmlFile s;
  if removedFileIsParent x file then
    let w := modify this (set_isValidated false) w in
    w ← XmlFile_detachParent this w;
    detachParent this w
  else Some w.

(** ** Notions used in the statements *)

(** A function call resolves to a local variable: the function scope at the
    start of the name of the call has a variable of that name, lower-cased. *)
Definition callNamesLocalVariable (file : File) (c : FunctionCall) : Prop :=
  ∃ fs v,
    getFunctionScopeAtPosition (file_common file) (start (call_nameRange c)) = Some fs
    ∧ v ∈ variableDeclarations fs
    ∧ toLowerCase (var_name v) = toLowerCase (call_name c).

(** The bucket of a name is empty: there is none, or it has no entry. *)
Definition bucketIsEmpty (callablesByLowerName : JsObj (list CallableContainer))
    (lowerName : string) : Prop :=
  obj_get callablesByLowerName lowerName = None
  ∨ obj_get callablesByLowerName lowerName = Some [].

(** The nearest ancestor occurrence of a name: [getAllCallables] lists own
    callables, then those of the parent, then those of its parent, and so
    on, so it is the first container of that name that is neither of this
    scope nor of the platform scope. *)
Definition nearestAncestorOccurrence (this platform : ScopeId) (lowerName : string)
    (allCallables : list CallableContainer) : option CallableContainer :=
  List.find (λ c,
      (bool_decide (scope c ≠ this) && bool_decide (scope c ≠ platform)
       && String.eqb (toLowerCase (callable_name (callable c))) lowerName)%bool)
    allCallables.

(** Where a container comes from: its scope and the pkgPath of its file. *)
Definition origin (c : CallableContainer) : ScopeId * string :=
  (scope c, pkgPath (callable_file (callable c))).




(** What validation never writes: the parent link, the descriptor, the
    member files and the event callbacks of a scope. *)
Definition links (s : Scope) :
    option ScopeId * option XmlFile * JsObj File * list (nat * ScopeId) * list (ScopeId * nat) :=
  (parentScope s, xmlFile s, files s, listeners s, parentScopeHandles s).

(** From [w] to [w'] no event was emitted, no callback registered and the
    scopes kept their links. *)
Definition sameLinks (w w' : World) : Prop :=
  platformScope w' = platformScope w
  ∧ emitted w' = emitted w
  ∧ nextHandle w' = nextHandle w
  ∧ ∀ id, links <$> scopes w' !! id = links <$> scopes w !! id.

(** From [w] to [w'] only the scope [this] was written, and not its links. *)
Definition touchesOnly (this : ScopeId) (w w' : World) : Prop :=
  sameLinks w w' ∧ ∀ id, id ≠ this → scopes w' !! id = scopes w !! id.

(** The scope [id] exists and its flag [isValidated] is [true]. *)
Definition validatedIn (w : World) (id : ScopeId) : Prop :=
  isValidated <$> scopes w !! id = Some true.

(** The parent chain of [this] ends after [n] links, in a scope without
    parent (the platform scope). *)
Inductive chainDepth (w : World) : ScopeId → nat → Prop :=
| chainDepth_root this s :
    scopes w !! this = Some s → parentScope s = None → chainDepth w this 0
| chainDepth_step this s parent n :
    scopes w !! this = Some s → parentScope s = Some parent →
    chainDepth w parent n → chainDepth w this (S n).


(** A call [validate(force)] on a scope in state [s] does not return at
    once: the scope is not validated, or the validation of a plain [Scope]
    is forced (a descriptor scope ignores [force]). *)
Definition validationRuns (s : Scope) (force : bool) : Prop :=
  isValidated s = false ∨ (force = true ∧ xmlFile s = None).











(** ** Worked scenarios *)

(** The collaborators of the worked examples: no platform callables, paths
    and names compared byte-wise, nothing suppressed, no class diagnostics. *)
Definition exampleCollaborators : Collaborators := {|
  platformCallableMap := ∅;
  localeCompare := String.compare;
  standardizePath := λ p, p;
  diagnosticIsSuppressed := λ _, false;
  BsClassValidator_diagnostics := λ _ _, [];
  doesReferenceFile := λ _ _, true
|}.

(** [scope.hasFile(path)] of the scope [id] *)
Definition scopeHasFile (w : World) (id : ScopeId) (path : string) : option bool :=
  (λ s, hasFile s path) <$> scopes w !! id.

(** Observations of a run that may not have finished. *)
Definition flagOf (w : option World) (id : ScopeId) : option bool :=
  w ≫= λ w, isValidated <$> scopes w !! id.

Definition eventsOf (w : option World) : option (list Event) := emitted <$> w.

Definition memberOf (w : option World) (id : ScopeId) (file : File) : option bool :=
  w ≫= λ w, scopeHasFile w id (file_pathAbsolute file).

Definition diagnosticsOf (w : option World) (id : ScopeId) : option (list BsDiagnostic) :=
  w ≫= λ w, diagnostics <$> scopes w !! id.


(** A file that declares nothing. *)
Definition emptyFile (f : FileId) : FileCommon :=
  mkFileCommon f [] [] [] (λ _, None) [] [] [].

(** A code file that declares the callables [cs] and calls nothing. *)
Definition fileWith (f : FileId) (cs : list Callable) : File :=
  IsBrsFile (mkFileCommon f cs [] [] (λ _, None) [] [] []).

(** The scenario of the argument count: [DoThing(a, b, c = 1)] declared
    in a file of scope "main" and called with one argument. *)
Definition mainFileId : FileId := mkFileId "/project/source/main.brs" "source/main.brs".

Definition doThing : Callable :=
  mkCallable "DoThing" (λ _, "DoThing") mainFileId (Range_create 0 9 0 16)
    [mkParam "a" false; mkParam "b" false; mkParam "c" true] false.

Definition doThingCall : FunctionCall := mkCall "doThing" ["1"] (Range_create 5 4 5 11).

Definition mainFile : File :=
  IsBrsFile (mkFileCommon mainFileId [doThing] [doThingCall] [] (λ _, None) [] [] []).

Definition doThingBuckets : JsObj (list CallableContainer) :=
  getCallableContainersByLowerName [mkContainer doThing "main"].

(** The scenario of the unknown call: [sub main(): doThing(): end sub], and
    no [doThing] declared anywhere. *)
Definition mainSub : Callable :=
  mkCallable "main" (λ _, "main") mainFileId (Range_create 0 4 0 8) [] false.

Definition unknownCall : FunctionCall := mkCall "doThing" [] (Range_create 1 4 1 11).

Definition unknownCallFile : File :=
  IsBrsFile (mkFileCommon mainFileId [mainSub] [unknownCall] [mkFunctionScope []]
               (λ _, Some (mkFunctionScope [])) [] [] []).

Definition mainOnlyBuckets : JsObj (list CallableContainer) :=
  getCallableContainersByLowerName [mkContainer mainSub "main"].

(** The scenario of the duplicate: "main" declares [greet] in two files. *)
Definition libFileId : FileId := mkFileId "/project/source/lib.brs" "source/lib.brs".

Definition greetIn (f : FileId) : Callable :=
  mkCallable "greet" (λ _, "greet") f (Range_create 2 9 2 14) [] false.

Definition twoGreetBuckets : JsObj (list CallableContainer) :=
  getCallableContainersByLowerName
    [mkContainer (greetIn libFileId) "main"; mkContainer (greetIn mainFileId) "main"].

(** The scenario of the override, with two levels of ancestors: "child"
    extends "parent", which extends "grand"; each declares [greet] in one
    file of its own. *)
Definition childFileId : FileId :=
  mkFileId "/project/components/child.brs" "components/child.brs".
Definition parentFileId : FileId :=
  mkFileId "/project/components/a_parent.brs" "components/a_parent.brs".
Definition grandFileId : FileId :=
  mkFileId "/project/components/b_grand.brs" "components/b_grand.brs".

Definition inheritanceWorld : option World :=
  foldM (λ w step, step w)
    (mkWorld {[ "global" := new_Scope (λ _, false);
                "grand" := new_Scope (λ _, true);
                "parent" := new_Scope (λ _, true);
                "child" := new_Scope (λ _, true) ]}
             "global" 0 [])
    [@addOrReplaceFile exampleCollaborators "grand" (fileWith grandFileId [greetIn grandFileId]);
     @addOrReplaceFile exampleCollaborators "parent" (fileWith parentFileId [greetIn parentFileId]);
     @addOrReplaceFile exampleCollaborators "child" (fileWith childFileId [greetIn childFileId]);
     attachParentScope "grand" "global";
     attachParentScope "parent" "grand";
     attachParentScope "child" "parent"].

(** In the scenario: the origin of the nearest ancestor occurrence of
    [greet] for "child", and the origins of the bucket of [greet] that
    [validate] builds for "child", in bucket order. *)
Definition nearestGreetOrigin : option (ScopeId * string) :=
  w ← inheritanceWorld;
  allCallables ← getAllCallables 4 w "child";
  origin <$> nearestAncestorOccurrence "child" "global" "greet" allCallables.

Definition greetBucketOrigins : option (list (ScopeId * string)) :=
  w ← inheritanceWorld;
  allCallables ← getAllCallables 4 w "child";
  fmap (M := list) origin
    <$> obj_get (getCallableContainersByLowerName
                   (sort (@compareCallables exampleCollaborators) allCallables))
                "greet".

Definition afterChildValidation : option World :=
  w ← inheritanceWorld; @validate exampleCollaborators 5 "child" false w.

(** The scenario of the re-imported script: the parent component imports
    [util.brs], and so does the child that extends it. *)
Definition parentXml : XmlFile :=
  mkXmlFile (emptyFile (mkFileId "/project/components/Parent.xml" "components/Parent.xml"))
    (Some "ParentComponent") None None
    [mkFileReference "source/util.brs" "pkg:/source/util.brs" (Range_create 2 16 2 36)
       (Some "ParentComponent")]
    None.

Definition childXml : XmlFile :=
  mkXmlFile (emptyFile (mkFileId "/project/components/Child.xml" "components/Child.xml"))
    (Some "ChildComponent") (Some "ParentComponent") (Some (Range_create 0 40 0 55))
    [mkFileReference "source/child.brs" "pkg:/source/child.brs" (Range_create 2 16 2 37)
       (Some "ChildComponent");
     mkFileReference "source/util.brs" "pkg:/source/util.brs" (Range_create 3 16 3 36)
       (Some "ChildComponent")]
    (Some parentXml).

(** The scenario of the parent name: a descriptor that extends
    "ParentComponent", its scope, and a descriptor of the program whose
    component is named "parentcomponent". *)
Definition orphanXml : XmlFile := xml_with_parent None childXml.



(** A program just set up: the platform scope "global" and a scope "main"
    whose parent it is, both as their constructor leaves them. *)
Definition constructedWorld : World :=
  mkWorld {[ "global" := new_Scope (λ _, false); "main" := new_Scope (λ _, true) ]}
          "global" 0 [].

Definition freshWorld : World :=
  default constructedWorld (attachParentScope "main" "global" constructedWorld).

(** A validated program: the platform scope "global", a scope "lib" below
    it and a scope "app" below "lib", linked by [attachParentScope] and then
    validated from "app". *)
Definition linkedWorld : option World :=
  attachParentScope "lib" "global"
    (mkWorld {[ "global" := new_Scope (λ _, false);
                "lib" := new_Scope (λ _, true);
                "app" := new_Scope (λ _, true) ]}
             "global" 0 [])
  ≫= attachParentScope "app" "lib".

Definition validatedWorld : option World :=
  linkedWorld ≫= @validate exampleCollaborators 4 "app" false.

(** The validated program after a first file is added to "lib"; after the
    file is then added again; after it is then removed instead. *)
Definition afterFreshAdd : option World :=
  validatedWorld ≫= @addOrReplaceFile exampleCollaborators "lib" mainFile.

Definition afterReplace : option World :=
  afterFreshAdd ≫= @addOrReplaceFile exampleCollaborators "lib" mainFile.

Definition afterRemove : option World :=
  afterFreshAdd ≫= @removeFile exampleCollaborators "lib" mainFile.


(** ** Notions used in the further properties *)

(** The class statements of the member files, in the order the loops of
    [buildClassLookup] visit them. *)
Definition memberClassStatements (s : Scope) : list ClassStatement :=
  flat_map (λ kf, classStatements (file_common kf.2)) (obj_entries (files s)).

(** The variable declarations of all function scopes of a file. *)
Definition fileVariableDeclarations (file : File) : list VariableDeclaration :=
  flat_map variableDeclarations (functionScopes (file_common file)).

(** The world after a handle has been given out. *)
Definition handleTaken (w : World) : World :=
  mkWorld (scopes w) (platformScope w) (S (nextHandle w)) (emitted w).

(** The scopes whose "invalidated" callback is registered with [s]. *)
Definition listening (s : Scope) : list ScopeId := snd <$> listeners s.

(** No callback registered so far has a handle still to be given out:
    what holds of every world built from scopes without callbacks by the
    methods of the scopes. *)
Definition handlesGiven (w : World) : Prop :=
  ∀ id s l, scopes w !! id = Some s → l ∈ listeners s → l.1 < nextHandle w.

(** The callbacks left on the scope [a] once the handles [handles] have
    been called. *)
Definition remaining (handles : list (ScopeId * nat)) (a : ScopeId)
    (ls : list (nat * ScopeId)) : list (nat * ScopeId) :=
  foldl (λ ls ph, if decide (ph.1 = a) then filter (λ l, l.1 ≠ ph.2) ls else ls) ls handles.

(** Whether [addOrReplaceFile] takes a file out before it stores the new
    one: the path is a key of [files], and [getFile] finds a file under the
    standardized path. *)
Definition replacesMember `{Collaborators} (s : Scope) (pathAbsolute : string) : bool :=
  match obj_get (files s) pathAbsolute, getFile s pathAbsolute with
  | Some _, Some _ => true
  | _, _ => false
  end.


(** A callable container answers to a name: its BrighterScript name equals
    the name once both are lower-cased. *)
Definition answersTo (name : string) (c : CallableContainer) : bool :=
  String.eqb (toLowerCase (getName (callable c) BrighterScript)) (toLowerCase name).











(** The scenario of the parent that comes and goes: the descriptor scopes of
    "ParentComponent" and of a component that extends it, whose parent is
    not resolved yet. *)
Definition familyWorld : World :=
  mkWorld {[ "global" := new_Scope (λ _, false);
             "components/Parent.xml" :=
               with_parentScope (Some "global") (new_XmlScope parentXml);
             "components/Child.xml" :=
               with_parentScope (Some "global") (new_XmlScope orphanXml) ]}
          "global" 0 [].

(** [Scope.attachProgram], for a program whose dictionary of files is
    [programFiles]: the loop that adds the current matches. The two
    handlers the method registers with the program are [onFileAdded] and
    [onFileRemoved]; the registrations themselves are kept by the
    program. *)
Definition Scope_attachProgram `{Collaborators} (this : ScopeId)
    (programFiles : JsObj File) (w : World) : option World :=
  foldM (λ w kf, onFileAdded this kf.2 w) w (obj_entries programFiles).

(** [XmlScope.attachProgram]: [super.attachProgram], the search for the
    parent among the files of the program, and the attachment of a parent
    that is resolved. The handlers registered with the program are
    [addParentIfMatch] and [onProgramFileRemove]. A resolved parent is a
    descriptor, and so never the platform scope the code compares it
    with. *)
Definition XmlScope_attachProgram `{Collaborators} (this : ScopeId)
    (programFiles : JsObj File) (w : World) : option World :=
  w ← Scope_attachProgram this programFiles w;
  w ← foldM (λ w kf, addParentIfMatch this kf.2 w) w (obj_entries programFiles);
  s ← scopes w !! this;
  x ← xmlFile s;
  match xml_parent x with
  | Some parent => handleXmlFileParentAttach this parent w
  | None => Some w
  end.

(* ================================================================== *)
(** * Part II: properties *)
(* ================================================================== *)

(** ** Argument counts *)

Lemma countParams_from (ps : list Param) (a b : nat) :
  foldl (λ mm param,
      let maxParams := S mm.2 in
      if bool_decide (isOptional param = false) then (S mm.1, maxParams) else (mm.1, maxParams))
    (a, b) ps
  = (a + List.length (filter (λ p, isOptional p = false) ps), b + List.length ps).
Proof.
  revert a b. induction ps as [|p ps IH]; intros a b; simpl.
  - f_equal; lia.
  - rewrite filter_cons. case_bool_decide as Hp.
    + rewrite decide_True by done. rewrite IH. simpl. f_equal; lia.
    + rewrite decide_False by done. rewrite IH. simpl. f_equal; lia.
Qed.

Lemma countParams_spec (ps : list Param) :
  countParams ps = (List.length (filter (λ p, isOptional p = false) ps), List.length ps).
Proof. unfold countParams. by rewrite countParams_from. Qed.

(** C5. For a call whose name has a known first callable, with [minParams]
    the number of parameters that are not optional and [maxParams] the number
    of parameters of that callable: a mismatch-argument-count diagnostic is
    pushed exactly when the number of arguments is below [minParams] or above
    [maxParams]; it is an error on the name of the call, carries the number
    of arguments, and its bounds are the number when both bounds agree and
    the text "min-max" otherwise. The diagnostics of a file are those of its
    calls. *)
Theorem mismatchArgumentCount_exactly_outside_bounds
    (file : File) (buckets : JsObj (list CallableContainer))
    (expCall : FunctionCall) (known : CallableContainer)
    (minParams maxParams actual : nat) :
  firstCallable buckets (toLowerCase (call_name expCall)) = Some known →
  minParams = List.length (filter (λ p, isOptional p = false) (params (callable known))) →
  maxParams = List.length (params (callable known)) →
  actual = List.length (args expCall) →
  (is_Some (mismatchArgumentCountDiagnostic file buckets expCall)
     ↔ actual < minParams ∨ maxParams < actual)
  ∧ (∀ d, mismatchArgumentCountDiagnostic file buckets expCall = Some d →
       ∃ text,
         d = mkDiagnostic (mismatchArgumentCount text actual)
               (call_nameRange expCall) (file_id (file_common file))
         ∧ severity (info d) = SevError
         ∧ (minParams = maxParams → text = TextNumber minParams)
         ∧ (minParams ≠ maxParams →
              text = TextString (pretty minParams +:+ "-" +:+ pretty maxParams)))
  ∧ (∀ d, d ∈ diagnosticDetectFunctionCallsWithWrongParamCount file buckets
       ↔ ∃ c, c ∈ functionCalls (file_common file)
              ∧ mismatchArgumentCountDiagnostic file buckets c = Some d).
Proof.
  intros Hknown -> -> ->.
  unfold mismatchArgumentCountDiagnostic. rewrite Hknown, countParams_spec.
  split; [|split].
  - repeat case_bool_decide; simpl; split; intros Hd;
      try (by eexists); try (destruct Hd as [? Hd]; discriminate); lia.
  - intros d. repeat case_bool_decide; simpl; intros Hd; try discriminate;
      injection Hd as <-; eexists; (split; [reflexivity|]); (split; [reflexivity|]);
      unfold minMaxParamsText; split; intros Heq; case_bool_decide; congruence.
  - intros d. unfold diagnosticDetectFunctionCallsWithWrongParamCount.
    rewrite list_elem_of_omap. reflexivity.
Qed.

(** The scenario of the design: [(a, b, c = 1)] called with one argument
    gives the bounds "2-3" and the actual count 1. *)
Lemma mismatchArgumentCount_exactly_outside_bounds_witness :
  firstCallable doThingBuckets (toLowerCase (call_name doThingCall))
    = Some (mkContainer doThing "main")
  ∧ mismatchArgumentCountDiagnostic mainFile doThingBuckets doThingCall
    = Some (mkDiagnostic (mismatchArgumentCount (TextString "2-3") 1)
              (Range_create 5 4 5 11) mainFileId).
Proof.
  split; [reflexivity|].
  destruct (mismatchArgumentCount_exactly_outside_bounds
              mainFile doThingBuckets doThingCall (mkContainer doThing "main") 2 3 1
              eq_refl eq_refl eq_refl eq_refl) as (Hiff & Htext & _).
  destruct (proj2 Hiff (or_introl (le_n 2))) as [d Hd].
  destruct (Htext d Hd) as (text & -> & _ & _ & Hne).
  rewrite Hd, (Hne ltac:(discriminate)). reflexivity.
Defined.

(** ** Calls to unknown functions *)

Lemma getVariableByName_Some (fs : FunctionScope) (name : string) :
  is_Some (getVariableByName fs name)
  ↔ ∃ v, v ∈ variableDeclarations fs ∧ toLowerCase (var_name v) = name.
Proof.
  unfold getVariableByName. split.
  - intros [v Hv]. apply find_some in Hv as [Hin Heq].
    exists v. split; [by apply list_elem_of_In|by apply String.eqb_eq].
  - intros (v & Hin & Heq).
    destruct (List.find _ _) eqn:Hfind; [by eexists|].
    apply list_elem_of_In in Hin.
    eapply find_none in Hfind; [|exact Hin].
    apply String.eqb_neq in Hfind. done.
Qed.

Lemma callNamesLocalVariable_lookup (file : File) (c : FunctionCall) :
  callNamesLocalVariable file c
  ↔ is_Some (getFunctionScopeAtPosition (file_common file) (start (call_nameRange c))
             ≫= λ scope, getVariableByName scope (toLowerCase (call_name c))).
Proof.
  unfold callNamesLocalVariable. split.
  - intros (fs & v & -> & Hin & Heq). simpl.
    apply getVariableByName_Some. eauto.
  - intros Hsome. destruct (getFunctionScopeAtPosition _ _) as [fs|]; simpl in Hsome.
    + apply getVariableByName_Some in Hsome as (v & Hin & Heq). eauto.
    + by destruct Hsome.
Qed.

Lemma bucketIsEmpty_firstCallable
    (buckets : JsObj (list CallableContainer)) (lowerName : string) :
  bucketIsEmpty buckets lowerName ↔ firstCallable buckets lowerName = None.
Proof.
  unfold bucketIsEmpty, firstCallable.
  destruct (obj_get buckets lowerName) as [[|c cs]|]; simpl;
    split; try done; try (intros [?|?]; done); auto.
Qed.

(** C6. For a call [c] of a member file, the call-to-unknown-function
    diagnostic of [c], an error on the name range of [c], is pushed if and
    only if the function scope at the start of that range has no variable
    named like [c] (lower-cased) and the bucket of the lower-cased name is
    empty. When there is such a variable nothing is pushed for [c], whatever
    the buckets hold. The diagnostics of a file are those of its calls. *)
Theorem callToUnknownFunction_iff
    (this : ScopeId) (file : File) (buckets : JsObj (list CallableContainer)) :
  (∀ c,
     (callToUnknownFunctionDiagnostic this file buckets c
        = Some (mkDiagnostic (callToUnknownFunction (call_name c) this)
                  (call_nameRange c) (file_id (file_common file)))
      ↔ ¬ callNamesLocalVariable file c
        ∧ bucketIsEmpty buckets (toLowerCase (call_name c)))
     ∧ (callToUnknownFunctionDiagnostic this file buckets c = None
        ↔ ¬ (¬ callNamesLocalVariable file c
             ∧ bucketIsEmpty buckets (toLowerCase (call_name c)))))
  ∧ (∀ c buckets', callNamesLocalVariable file c →
       callToUnknownFunctionDiagnostic this file buckets' c = None)
  ∧ (∀ d, d ∈ diagnosticDetectCallsToUnknownFunctions this file buckets
       ↔ ∃ c, c ∈ functionCalls (file_common file)
              ∧ ¬ callNamesLocalVariable file c
              ∧ bucketIsEmpty buckets (toLowerCase (call_name c))
              ∧ d = mkDiagnostic (callToUnknownFunction (call_name c) this)
                      (call_nameRange c) (file_id (file_common file))
              ∧ severity (info d) = SevError).
Proof.
  assert (Hcall : ∀ c,
     (callToUnknownFunctionDiagnostic this file buckets c
        = Some (mkDiagnostic (callToUnknownFunction (call_name c) this)
                  (call_nameRange c) (file_id (file_common file)))
      ↔ ¬ callNamesLocalVariable file c
        ∧ bucketIsEmpty buckets (toLowerCase (call_name c)))
     ∧ (callToUnknownFunctionDiagnostic this file buckets c = None
        ↔ ¬ (¬ callNamesLocalVariable file c
             ∧ bucketIsEmpty buckets (toLowerCase (call_name c))))).
  { intros c. rewrite callNamesLocalVariable_lookup, bucketIsEmpty_firstCallable.
    unfold callToUnknownFunctionDiagnostic.
    destruct (getFunctionScopeAtPosition _ _ ≫= _) as [v|]; simpl.
    - assert (Hs : is_Some (Some v)) by (by eexists).
      split; split;
        [done | intros [Hno _]; by destruct Hno
        | intros _ [Hno _]; by destruct Hno | done].
    - assert (Hn : ¬ is_Some (@None VariableDeclaration)) by (by intros [? ?]).
      destruct (firstCallable buckets _) as [k|]; simpl.
      + split; split; [done | intros [_ ?]; done | intros _ [_ ?]; done | done].
      + split; split; [done | done | done | intros Hneg; by destruct Hneg]. }
  split; [exact Hcall|split].
  - intros c buckets' Hvar. apply callNamesLocalVariable_lookup in Hvar as [v Hv].
    unfold callToUnknownFunctionDiagnostic. by rewrite Hv.
  - intros d. unfold diagnosticDetectCallsToUnknownFunctions.
    rewrite list_elem_of_omap. split.
    + intros (c & Hin & Hd). exists c. split; [done|].
      destruct (Hcall c) as [Hsome Hnone].
      assert (Hshape : d = mkDiagnostic (callToUnknownFunction (call_name c) this)
                             (call_nameRange c) (file_id (file_common file))).
      { unfold callToUnknownFunctionDiagnostic in Hd.
        repeat case_match; congruence. }
      subst d. apply Hsome in Hd as [? ?]. done.
    + intros (c & Hin & Hvar & Hempty & -> & _). exists c. split; [done|].
      by apply (Hcall c).
Qed.

(** The scenario of the design: one diagnostic, on the name of the call. *)
Lemma callToUnknownFunction_iff_witness :
  ¬ callNamesLocalVariable unknownCallFile unknownCall
  ∧ bucketIsEmpty mainOnlyBuckets (toLowerCase (call_name unknownCall))
  ∧ mkDiagnostic (callToUnknownFunction "doThing" "main") (Range_create 1 4 1 11) mainFileId
    ∈ diagnosticDetectCallsToUnknownFunctions "main" unknownCallFile mainOnlyBuckets
  ∧ List.length (diagnosticDetectCallsToUnknownFunctions "main" unknownCallFile mainOnlyBuckets)
    = 1.
Proof.
  assert (Hno : ¬ callNamesLocalVariable unknownCallFile unknownCall).
  { intros (fs & v & Hfs & Hin & _). injection Hfs as <-. by apply elem_of_nil in Hin. }
  assert (Hempty : bucketIsEmpty mainOnlyBuckets (toLowerCase (call_name unknownCall)))
    by (left; reflexivity).
  split; [exact Hno|]. split; [exact Hempty|]. split; [|reflexivity].
  apply (callToUnknownFunction_iff "main" unknownCallFile mainOnlyBuckets).
  exists unknownCall. split; [apply list_elem_of_here|]. split; [exact Hno|].
  split; [exact Hempty|]. split; reflexivity.
Defined.

(** ** Duplicate and overriding declarations *)

Lemma partitionCallables_from (this platform : ScopeId) (cs : list CallableContainer)
    (p : Partition) :
  foldl (partitionStep this platform) p cs
  = mkPartition
      (platformCallables p ++ filter (λ c, scope c = platform) cs)
      (nonPlatformCallables p ++ filter (λ c, scope c ≠ platform) cs)
      (ownCallables p ++ filter (λ c, scope c ≠ platform ∧ scope c = this) cs)
      (ancestorNonPlatformCallables p
         ++ filter (λ c, scope c ≠ platform ∧ scope c ≠ this) cs).
Proof.
  revert p. induction cs as [|c cs IH]; intros p; simpl.
  - rewrite !app_nil_r. by destruct p.
  - rewrite IH. unfold partitionStep. rewrite !filter_cons.
    destruct (decide (scope c = platform)) as [Hp|Hp].
    + rewrite (bool_decide_eq_true_2 _ Hp). simpl.
      rewrite (decide_False (P := scope c ≠ platform)) by tauto.
      rewrite (decide_False (P := scope c ≠ platform ∧ scope c = this)) by tauto.
      rewrite (decide_False (P := scope c ≠ platform ∧ scope c ≠ this)) by tauto.
      by rewrite <- app_assoc.
    + rewrite (bool_decide_eq_false_2 _ Hp).
      rewrite (decide_True (P := scope c ≠ platform)) by tauto.
      destruct (decide (scope c = this)) as [Ht|Ht].
      * rewrite (bool_decide_eq_true_2 _ Ht). simpl.
        rewrite (decide_True (P := scope c ≠ platform ∧ scope c = this)) by tauto.
        rewrite (decide_False (P := scope c ≠ platform ∧ scope c ≠ this)) by tauto.
        by rewrite <- !app_assoc.
      * rewrite (bool_decide_eq_false_2 _ Ht). simpl.
        rewrite (decide_False (P := scope c ≠ platform ∧ scope c = this)) by tauto.
        rewrite (decide_True (P := scope c ≠ platform ∧ scope c ≠ this)) by tauto.
        by rewrite <- !app_assoc.
Qed.

(** The loop that sorts a bucket computes four filters of the bucket. *)
Lemma partitionCallables_spec (this platform : ScopeId) (cs : list CallableContainer) :
  partitionCallables this platform cs
  = mkPartition
      (filter (λ c, scope c = platform) cs)
      (filter (λ c, scope c ≠ platform) cs)
      (filter (λ c, scope c ≠ platform ∧ scope c = this) cs)
      (filter (λ c, scope c ≠ platform ∧ scope c ≠ this) cs).
Proof. unfold partitionCallables. by rewrite partitionCallables_from. Qed.

Lemma bucketDiagnostics_included (this platform : ScopeId)
    (buckets : JsObj (list CallableContainer)) (lowerName : string)
    (containers : list CallableContainer) (d : BsDiagnostic) :
  (lowerName, containers) ∈ obj_entries buckets →
  d ∈ bucketDiagnostics this platform lowerName containers →
  d ∈ diagnosticFindDuplicateFunctionDeclarations this platform buckets.
Proof.
  intros Hin Hd. unfold diagnosticFindDuplicateFunctionDeclarations.
  apply list_elem_of_In, in_flat_map. exists (lowerName, containers).
  split; by apply list_elem_of_In.
Qed.

(** C2. For a bucket of the map whose own partition (the containers of this
    scope, which is not the platform scope) has more than one entry, the
    duplicate-function-implementation diagnostic, an error, of every own
    entry is among the diagnostics pushed, that of the first own entry
    included; the diagnostics pushed for the bucket are those of the own
    entries in their order, and reordering the bucket only reorders them. *)
Theorem duplicateFunctionImplementation_every_own_entry
    (this platform : ScopeId) (buckets : JsObj (list CallableContainer))
    (lowerName : string) (containers : list CallableContainer) :
  (lowerName, containers) ∈ obj_entries buckets →
  1 < List.length (ownCallables (partitionCallables this platform containers)) →
  ownCallables (partitionCallables this platform containers)
    = filter (λ c, scope c ≠ platform ∧ scope c = this) containers
  ∧ (∀ c, c ∈ ownCallables (partitionCallables this platform containers) →
       duplicateFunctionDiagnostic c
         ∈ diagnosticFindDuplicateFunctionDeclarations this platform buckets
       ∧ severity (info (duplicateFunctionDiagnostic c)) = SevError)
  ∧ (∀ first, head (ownCallables (partitionCallables this platform containers)) = Some first →
       duplicateFunctionDiagnostic first
         ∈ diagnosticFindDuplicateFunctionDeclarations this platform buckets)
  ∧ duplicateFunctionDiagnostics (partitionCallables this platform containers)
    = duplicateFunctionDiagnostic <$> ownCallables (partitionCallables this platform containers)
  ∧ (∀ containers', containers' ≡ₚ containers →
       duplicateFunctionDiagnostics (partitionCallables this platform containers')
       ≡ₚ duplicateFunctionDiagnostics (partitionCallables this platform containers)).
Proof.
  intros Hbucket Hmany.
  assert (Hdup : duplicateFunctionDiagnostics (partitionCallables this platform containers)
                 = duplicateFunctionDiagnostic
                     <$> ownCallables (partitionCallables this platform containers)).
  { unfold duplicateFunctionDiagnostics. by rewrite bool_decide_eq_true_2. }
  assert (Hall : ∀ c, c ∈ ownCallables (partitionCallables this platform containers) →
       duplicateFunctionDiagnostic c
         ∈ diagnosticFindDuplicateFunctionDeclarations this platform buckets).
  { intros c Hc. eapply bucketDiagnostics_included; [exact Hbucket|].
    unfold bucketDiagnostics. apply elem_of_app. right.
    rewrite Hdup. by apply list_elem_of_fmap_2. }
  split; [by rewrite partitionCallables_spec|].
  split; [intros c Hc; split; [by apply Hall|done]|].
  split; [intros first Hfirst; apply Hall; by apply head_Some_elem_of|].
  split; [exact Hdup|].
  intros containers' Hperm. unfold duplicateFunctionDiagnostics.
  rewrite !partitionCallables_spec. simpl.
  assert (Hown : filter (λ c, scope c ≠ platform ∧ scope c = this) containers'
                 ≡ₚ filter (λ c, scope c ≠ platform ∧ scope c = this) containers)
    by (by rewrite Hperm).
  rewrite (Permutation_length Hown).
  case_bool_decide; [by apply fmap_Permutation|done].
Qed.

Lemma duplicateFunctionImplementation_every_own_entry_witness :
  ("greet", [mkContainer (greetIn libFileId) "main"; mkContainer (greetIn mainFileId) "main"])
    ∈ obj_entries twoGreetBuckets
  ∧ 1 < List.length
          (ownCallables
             (partitionCallables "main" "global"
                [mkContainer (greetIn libFileId) "main"; mkContainer (greetIn mainFileId) "main"]))
  ∧ diagnosticFindDuplicateFunctionDeclarations "main" "global" twoGreetBuckets
    = [mkDiagnostic (duplicateFunctionImplementation "greet" "main")
         (Range_create 2 9 2 14) libFileId;
       mkDiagnostic (duplicateFunctionImplementation "greet" "main")
         (Range_create 2 9 2 14) mainFileId].
Proof.
  assert (Hin : ("greet", [mkContainer (greetIn libFileId) "main";
                           mkContainer (greetIn mainFileId) "main"])
                ∈ obj_entries twoGreetBuckets) by (vm_compute; apply list_elem_of_here).
  assert (Hlen : 1 < List.length
          (ownCallables
             (partitionCallables "main" "global"
                [mkContainer (greetIn libFileId) "main"; mkContainer (greetIn mainFileId) "main"])))
    by (vm_compute; lia).
  split; [exact Hin|]. split; [exact Hlen|].
  destruct (duplicateFunctionImplementation_every_own_entry
              "main" "global" twoGreetBuckets "greet" _ Hin Hlen) as (_ & _ & _ & _ & _).
  reflexivity.
Defined.

(** What the code does for the overrides of a bucket: with own entries, with
    non-platform ancestor entries and a name other than "init", one info
    diagnostic per own entry, each referring to the last ancestor entry of
    the bucket; for "init", or without own or ancestor entries, nothing. *)
Lemma overridesAncestor_refers_to_last_of_bucket (lowerName : string) (p : Partition) :
  (ownCallables p ≠ [] → ancestorNonPlatformCallables p ≠ [] → lowerName ≠ "init" →
     ∃ shadowed,
       last (ancestorNonPlatformCallables p) = Some shadowed
       ∧ overridesAncestorDiagnostics lowerName p
         = (λ c, overridesAncestorDiagnostic c shadowed) <$> ownCallables p
       ∧ ∀ c, severity (info (overridesAncestorDiagnostic c shadowed)) = SevInformation)
  ∧ (lowerName = "init" → overridesAncestorDiagnostics lowerName p = [])
  ∧ (ownCallables p = [] ∨ ancestorNonPlatformCallables p = [] →
     overridesAncestorDiagnostics lowerName p = []).
Proof.
  destruct p as [plat nonplat own anc]. unfold overridesAncestorDiagnostics. simpl.
  split; [|split].
  - intros Hown Hanc Hname.
    destruct (last anc) as [shadowed|] eqn:Hlast; [|by apply last_None in Hlast].
    exists shadowed. split; [done|]. split; [|done].
    rewrite !bool_decide_eq_true_2 by (destruct own, anc; simpl; try done; lia).
    simpl. clear Hown. induction own as [|c own IH]; simpl; [done|]. by f_equal.
  - intros ->. destruct (_ && _)%bool; [|done].
    induction own as [|c own IH]; simpl; [done|]. exact IH.
  - intros [->| ->]; simpl; [done|]. by rewrite andb_false_r.
Qed.

(** C3, on the code. For a bucket with own entries, non-platform ancestor
    entries and a name other than "init", the code pushes one override info
    per own entry, each referring to the last ancestor entry of the bucket;
    for "init" it pushes none. The last ancestor entry need not be the
    nearest one. "child" overrides [greet], which its parent "parent"
    declares (in [a_parent.brs]) and so does the parent of that, "grand" (in
    [b_grand.brs]). The nearest ancestor occurrence is the one of "parent".
    After validation the only diagnostic of "child" is the override info,
    and it refers to the occurrence in "grand": the bucket is sorted by file
    path, and its last ancestor entry is the one with the greatest path. *)
Theorem overridesAncestor_may_name_a_farther_ancestor :
  (∀ this platform lowerName containers,
     let p := partitionCallables this platform containers in
     ownCallables p ≠ [] → ancestorNonPlatformCallables p ≠ [] → lowerName ≠ "init" →
     ∃ shadowed,
       last (filter (λ c, scope c ≠ platform ∧ scope c ≠ this) containers) = Some shadowed
       ∧ overridesAncestorDiagnostics lowerName p
         = (λ c, overridesAncestorDiagnostic c shadowed) <$> ownCallables p)
  ∧ (∀ this platform containers,
       overridesAncestorDiagnostics "init" (partitionCallables this platform containers) = [])
  ∧ (
    nearestGreetOrigin = Some ("parent", "components/a_parent.brs")
    ∧ greetBucketOrigins
      = Some [("parent", "components/a_parent.brs"); ("grand", "components/b_grand.brs");
              ("child", "components/child.brs")]
    ∧ diagnosticsOf afterChildValidation "child"
      = Some [mkDiagnostic
                (overridesAncestorFunction "greet" "child" "components/b_grand.brs" "grand")
                (Range_create 2 9 2 14) childFileId]).
Proof.
  split; [|split].
  - intros this platform lowerName containers p Hown Hanc Hname.
    destruct (overridesAncestor_refers_to_last_of_bucket lowerName p) as (Hlast & _).
    destruct (Hlast Hown Hanc Hname) as (shadowed & Hshadowed & Hdiagnostics & _).
    exists shadowed. split; [|done].
    subst p. by rewrite partitionCallables_spec in Hshadowed.
  - intros this platform containers.
    destruct (overridesAncestor_refers_to_last_of_bucket "init"
                (partitionCallables this platform containers)) as (_ & Hinit & _).
    by apply Hinit.
  - repeat split; vm_compute; reflexivity.
Qed.

(** ** Script imports shared with an ancestor *)

Lemma obj_get_set {V} (o : JsObj V) (k k' : string) (v : V) :
  obj_get (obj_set k v o) k' = if decide (k = k') then Some v else obj_get o k'.
Proof. unfold obj_get, obj_set. simpl. apply lookup_insert. Qed.



Lemma find_app {B} (p : B → bool) (l1 l2 : list B) :
  List.find p (l1 ++ l2)
  = match List.find p l1 with
    | Some b => Some b
    | None => List.find p l2
    end.
Proof. induction l1 as [|b l1 IH]; simpl; [done|]. by destruct (p b). Qed.





(** ** The heap of scopes *)

Lemma modify_lookup (id id' : ScopeId) (f : Scope → Scope) (w : World) :
  scopes (modify id f w) !! id'
  = if decide (id = id') then f <$> scopes w !! id else scopes w !! id'.
Proof. unfold modify. simpl. apply lookup_alter. Qed.

Lemma modify_lookup_eq (id : ScopeId) (f : Scope → Scope) (w : World) :
  scopes (modify id f w) !! id = f <$> scopes w !! id.
Proof. rewrite modify_lookup. by rewrite decide_True. Qed.

Lemma modify_lookup_ne (id id' : ScopeId) (f : Scope → Scope) (w : World) :
  id ≠ id' → scopes (modify id f w) !! id' = scopes w !! id'.
Proof. intros. rewrite modify_lookup. by rewrite decide_False. Qed.

Lemma sameLinks_refl (w : World) : sameLinks w w.
Proof. by repeat split. Qed.

Lemma sameLinks_trans (w1 w2 w3 : World) :
  sameLinks w1 w2 → sameLinks w2 w3 → sameLinks w1 w3.
Proof.
  intros (? & ? & ? & H12) (? & ? & ? & H23).
  split; [congruence|]. split; [congruence|]. split; [congruence|].
  intros id. by rewrite H23, H12.
Qed.

Lemma touchesOnly_refl (this : ScopeId) (w : World) : touchesOnly this w w.
Proof. split; [apply sameLinks_refl|done]. Qed.

Lemma touchesOnly_trans (this : ScopeId) (w1 w2 w3 : World) :
  touchesOnly this w1 w2 → touchesOnly this w2 w3 → touchesOnly this w1 w3.
Proof.
  intros [L12 O12] [L23 O23]. split; [by eapply sameLinks_trans|].
  intros id Hid. by rewrite O23, O12.
Qed.

Lemma modify_touchesOnly (this : ScopeId) (f : Scope → Scope) (w : World) :
  (∀ s, links (f s) = links s) → touchesOnly this w (modify this f w).
Proof.
  intros Hf. split.
  - split; [done|]. split; [done|]. split; [done|].
    intros id. rewrite modify_lookup.
    case_decide as Hid; [subst id|done].
    destruct (scopes w !! this) as [s|]; simpl; [|done]. by rewrite Hf.
  - intros id Hid. by apply modify_lookup_ne.
Qed.

Lemma modify_sameLinks (this : ScopeId) (f : Scope → Scope) (w : World) :
  (∀ s, links (f s) = links s) → sameLinks w (modify this f w).
Proof. intros Hf. by apply modify_touchesOnly. Qed.

Lemma foldl_modify_touchesOnly {A} (this : ScopeId) (f : A → Scope → Scope)
    (l : list A) (w : World) :
  (∀ a s, links (f a s) = links s) →
  touchesOnly this w (foldl (λ w a, modify this (f a) w) w l).
Proof.
  intros Hf. revert w. induction l as [|a l IH]; intros w; simpl.
  - apply touchesOnly_refl.
  - eapply touchesOnly_trans; [|apply IH]. by apply modify_touchesOnly.
Qed.

Lemma sameLinks_is_Some (w w' : World) (id : ScopeId) :
  sameLinks w w' → is_Some (scopes w !! id) → is_Some (scopes w' !! id).
Proof.
  intros (_ & _ & _ & Hl) [s Hs]. specialize (Hl id). rewrite Hs in Hl.
  destruct (scopes w' !! id); [by eexists|done].
Qed.

Lemma sameLinks_parentScope (w w' : World) (id : ScopeId) (s : Scope) :
  sameLinks w w' → scopes w !! id = Some s →
  ∃ s', scopes w' !! id = Some s' ∧ links s' = links s.
Proof.
  intros (_ & _ & _ & Hl) Hs. specialize (Hl id). rewrite Hs in Hl.
  destruct (scopes w' !! id) as [s'|]; [|done]. exists s'. split; [done|].
  simpl in Hl. congruence.
Qed.

Lemma links_set_isValidated (v : bool) (s : Scope) : links (set_isValidated v s) = links s.
Proof. done. Qed.

Lemma links_push_diagnostics (ds : list BsDiagnostic) (s : Scope) :
  links (push_diagnostics ds s) = links s.
Proof. done. Qed.

Lemma links_get_classLookup (s : Scope) : links (get_classLookup s).2 = links s.
Proof. unfold get_classLookup. by destruct (_classLookup s). Qed.

(** ** What [validate] leaves behind *)

Lemma validateSelf_inv `{Collaborators} (fuel : nat) (this : ScopeId) (w w' : World) :
  validateSelf fuel this w = Some w' →
  touchesOnly this w w' ∧ ∃ s', scopes w' !! this = Some (set_isValidated true s').
Proof.
  unfold validateSelf. intros Hrun. cbv zeta in Hrun.
  apply bind_Some in Hrun as (callables & _ & Hrun).
  match type of Hrun with
  | context [validateClasses this ?w0] => set (w2 := w0) in *
  end.
  apply bind_Some in Hrun as (s & Hs & Hrun).
  injection Hrun as <-.
  match goal with
  | |- context [foldl ?g ?w0 ?l] => set (w4 := foldl g w0 l)
  end.
  assert (T01 : touchesOnly this w (modify this (with_diagnostics []) w))
    by (by apply modify_touchesOnly).
  assert (T12 : touchesOnly this (modify this (with_diagnostics []) w) w2)
    by (by apply modify_touchesOnly).
  assert (T23 : touchesOnly this w2 (validateClasses this w2)).
  { apply modify_touchesOnly. intros s0.
    by rewrite links_push_diagnostics, links_get_classLookup. }
  assert (T34 : touchesOnly this (validateClasses this w2) w4).
  { subst w4.
    apply (foldl_modify_touchesOnly this
             (λ kf, push_diagnostics (fileDiagnostics this kf.2 _))). done. }
  assert (T45 : touchesOnly this w4 (modify this (set_isValidated true) w4))
    by (by apply modify_touchesOnly).
  split.
  - eapply touchesOnly_trans; [exact T01|]. eapply touchesOnly_trans; [exact T12|].
    eapply touchesOnly_trans; [exact T23|]. eapply touchesOnly_trans; [exact T34|].
    exact T45.
  - rewrite modify_lookup_eq.
    destruct (sameLinks_is_Some _ w4 this (proj1 T34)) as [s4 Hs4]; [by eexists|].
    rewrite Hs4. by eexists.
Qed.

Lemma validatedIn_lookup (w : World) (id : ScopeId) (s : Scope) :
  scopes w !! id = Some s → isValidated s = true → validatedIn w id.
Proof. intros Hs Hv. unfold validatedIn. rewrite Hs. simpl. by f_equal. Qed.

Lemma validatedIn_touchesOnly (this id : ScopeId) (w w' : World) :
  touchesOnly this w w' → validatedIn w' this → validatedIn w id → validatedIn w' id.
Proof.
  intros [_ Hother] Hthis Hid. destruct (decide (id = this)) as [->|Hne]; [done|].
  unfold validatedIn. by rewrite Hother.
Qed.

Lemma validateParentFirst_inv
    (validateParent : ScopeId → bool → World → option World)
    (s : Scope) (force : bool) (w w' : World) :
  (∀ parent force w w', validateParent parent force w = Some w' →
     sameLinks w w' ∧ validatedIn w' parent) →
  validateParentFirst validateParent s force w = Some w' →
  sameLinks w w' ∧ ∀ parent, parentScope s = Some parent → validatedIn w' parent.
Proof.
  intros IH. unfold validateParentFirst.
  destruct (parentScope s) as [parent|]; [|intros [= <-]; split; [apply sameLinks_refl|done]].
  intros Hrun. apply bind_Some in Hrun as (p & Hp & Hrun).
  destruct (isValidated p) eqn:Hvalid; simpl in Hrun.
  - injection Hrun as <-. split; [apply sameLinks_refl|].
    intros ? [= <-]. by eapply validatedIn_lookup.
  - apply IH in Hrun as [? ?]. split; [done|]. by intros ? [= <-].
Qed.

Lemma validatedIn_set_true (w : World) (this : ScopeId) (s' : Scope) :
  scopes w !! this = Some (set_isValidated true s') → validatedIn w this.
Proof. intros Hs. unfold validatedIn. by rewrite Hs. Qed.

(** What a call of [validate] that returns has done: no event, no change of
    any link; the scope is validated; and when the call did not return at
    once, its last write to the scope was [isValidated = true] and the
    direct parent is validated. *)
Lemma validate_inv `{Collaborators} (fuel : nat) (this : ScopeId) (force : bool)
    (w w' : World) :
  validate fuel this force w = Some w' →
  sameLinks w w'
  ∧ validatedIn w' this
  ∧ ∀ s, scopes w !! this = Some s → validationRuns s force →
      (∃ s', scopes w' !! this = Some (set_isValidated true s'))
      ∧ ∀ parent, parentScope s = Some parent → validatedIn w' parent.
Proof.
  revert this force w w'. induction fuel as [|fuel IH]; intros this force w w'; [done|].
  simpl. intros Hrun. apply bind_Some in Hrun as (s & Hs & Hrun).
  assert (IH' : ∀ parent force w w', validate fuel parent force w = Some w' →
                  sameLinks w w' ∧ validatedIn w' parent).
  { intros parent f w0 w0' Hv. apply IH in Hv as (? & ? & _). done. }
  assert (Hbase : ∀ force' w1,
            (isValidated s && negb force')%bool = false →
            Scope_validate (validate fuel) fuel this force' w = Some w1 →
            sameLinks w w1
            ∧ (∃ s', scopes w1 !! this = Some (set_isValidated true s'))
            ∧ ∀ parent, parentScope s = Some parent → validatedIn w1 parent).
  { intros force' w1 Hgo Hv. unfold Scope_validate in Hv.
    apply bind_Some in Hv as (s0 & Hs0 & Hv). assert (s0 = s) as -> by congruence.
    rewrite Hgo in Hv.
    apply bind_Some in Hv as (w0 & Hparent & Hself).
    apply (validateParentFirst_inv _ _ _ _ _ IH') in Hparent as [L0 Hp].
    apply validateSelf_inv in Hself as [T1 [s' Hs']].
    split; [eapply sameLinks_trans; [exact L0|apply T1]|].
    split; [by eexists|].
    intros parent Hparent. eapply validatedIn_touchesOnly; [exact T1| |by apply Hp].
    by eapply validatedIn_set_true. }
  destruct (xmlFile s) as [x|] eqn:Hx.
  - unfold XmlScope_validate in Hrun.
    apply bind_Some in Hrun as (s0 & Hs0 & Hrun). assert (s0 = s) as -> by congruence.
    destruct (isValidated s) eqn:Hvalid; cbn [negb] in Hrun.
    + injection Hrun as <-. split; [apply sameLinks_refl|].
      split; [by eapply validatedIn_lookup|].
      intros s0 Hs0' [Hno|[_ Hno]]; congruence.
    + apply bind_Some in Hrun as (w1 & Hv & Hrun). cbv zeta in Hrun.
      apply Hbase in Hv as (L1 & [s1 Hs1] & Hp); [|done].
      apply bind_Some in Hrun as (s3 & Hs3 & Hrun).
      injection Hrun as <-.
      match goal with
      | |- context [modify this (set_isValidated true) (modify this ?f ?w3)] =>
          set (w4 := modify this f w3); set (w3' := w3) in *
      end.
      assert (T : touchesOnly this w1 (modify this (set_isValidated true) w4)).
      { eapply touchesOnly_trans; [|by apply modify_touchesOnly].
        eapply touchesOnly_trans; [|by apply modify_touchesOnly].
        eapply touchesOnly_trans; [|by apply modify_touchesOnly].
        by apply modify_touchesOnly. }
      assert (Hfinal : ∃ s', scopes (modify this (set_isValidated true) w4) !! this
                             = Some (set_isValidated true s')).
      { rewrite modify_lookup_eq. subst w4. rewrite modify_lookup_eq, Hs3. by eexists. }
      split; [eapply sameLinks_trans; [exact L1|apply T]|].
      destruct Hfinal as [s' Hs'].
      split; [by eapply validatedIn_set_true|].
      intros s0 Hs0' _. assert (s0 = s) as -> by congruence.
      split; [by eexists|].
      intros parent Hparent. eapply validatedIn_touchesOnly; [exact T| |by apply Hp].
      by eapply validatedIn_set_true.
  - destruct (isValidated s && negb force)%bool eqn:Hgo.
    + unfold Scope_validate in Hrun.
      apply bind_Some in Hrun as (s0 & Hs0 & Hrun). assert (s0 = s) as -> by congruence.
      rewrite Hgo in Hrun. injection Hrun as <-.
      apply andb_true_iff in Hgo as [Hvalid Hforce].
      split; [apply sameLinks_refl|].
      split; [by eapply validatedIn_lookup|].
      intros s0 Hs0' [Hno|[Hf _]]; [congruence|].
      subst force. done.
    + apply Hbase in Hrun as (L1 & [s1 Hs1] & Hp); [|done].
      split; [done|]. split; [by eapply validatedIn_set_true|].
      intros s0 Hs0' _. assert (s0 = s) as -> by congruence.
      split; [by eexists|done].
Qed.

(** A validation that runs validates the parent first, in the world it
    found, and from then on writes to its own scope only. *)
Lemma validate_run `{Collaborators} (fuel : nat) (this : ScopeId) (force : bool)
    (w w' : World) (s : Scope) :
  validate (S fuel) this force w = Some w' →
  scopes w !! this = Some s → validationRuns s force →
  ∃ w0 force',
    validateParentFirst (validate fuel) s force' w = Some w0
    ∧ touchesOnly this w0 w'
    ∧ validatedIn w' this.
Proof.
  intros Hrun Hs Hruns.
  assert (Hvalid : validatedIn w' this) by (by apply validate_inv in Hrun as (_ & ? & _)).
  simpl in Hrun. apply bind_Some in Hrun as (s0 & Hs0 & Hrun).
  assert (s0 = s) as -> by congruence.
  assert (Hbase : ∀ force' w1,
            (isValidated s && negb force')%bool = false →
            Scope_validate (validate fuel) fuel this force' w = Some w1 →
            ∃ w0, validateParentFirst (validate fuel) s force' w = Some w0
                  ∧ touchesOnly this w0 w1).
  { intros force' w1 Hgo Hv. unfold Scope_validate in Hv.
    apply bind_Some in Hv as (s1 & Hs1 & Hv). assert (s1 = s) as -> by congruence.
    rewrite Hgo in Hv. apply bind_Some in Hv as (w0 & Hparent & Hself).
    exists w0. split; [done|]. by apply validateSelf_inv in Hself as [? _]. }
  destruct (xmlFile s) as [x|] eqn:Hx.
  - assert (Hflag : isValidated s = false) by (destruct Hruns as [?|[_ ?]]; congruence).
    unfold XmlScope_validate in Hrun.
    apply bind_Some in Hrun as (s1 & Hs1 & Hrun). assert (s1 = s) as -> by congruence.
    rewrite Hflag in Hrun. cbn [negb] in Hrun.
    apply bind_Some in Hrun as (w1 & Hv & Hrun). cbv zeta in Hrun.
    apply Hbase in Hv as (w0 & Hparent & T01); [|by rewrite Hflag].
    apply bind_Some in Hrun as (s3 & Hs3 & Hrun). injection Hrun as <-.
    exists w0, false. split; [done|]. split; [|done].
    eapply touchesOnly_trans; [exact T01|].
    eapply touchesOnly_trans; [|by apply modify_touchesOnly].
    eapply touchesOnly_trans; [|by apply modify_touchesOnly].
    eapply touchesOnly_trans; [|by apply modify_touchesOnly].
    by apply modify_touchesOnly.
  - apply Hbase in Hrun as (w0 & Hparent & T01).
    + by exists w0, force.
    + destruct Hruns as [->|[-> _]]; [done|by rewrite andb_false_r].
Qed.


Lemma foldl_push_diagnostics {A} (this : ScopeId) (f : A → list BsDiagnostic)
    (l : list A) (w : World) (s : Scope) :
  scopes w !! this = Some s →
  scopes (foldl (λ w a, modify this (push_diagnostics (f a)) w) w l) !! this
  = Some (with_diagnostics (diagnostics s ++ flat_map f l) s).
Proof.
  revert w s. induction l as [|a l IH]; intros w s Hs; simpl.
  - rewrite app_nil_r, Hs. by destruct s.
  - erewrite IH; [|by rewrite modify_lookup_eq, Hs].
    simpl. by rewrite <- app_assoc.
Qed.

(** The diagnostics a validation leaves on the scope: those of the
    duplicate and override check on the buckets of all callables, then those
    of the class validator, then those of the four checks on each member
    file, in the order of the files. *)
Lemma validateSelf_diagnostics `{Collaborators} (fuel : nat) (this : ScopeId)
    (w w' : World) (s : Scope) :
  scopes w !! this = Some s →
  validateSelf fuel this w = Some w' →
  ∃ callables classDiagnostics,
    getAllCallables fuel (modify this (with_diagnostics []) w) this = Some callables
    ∧ diagnostics <$> scopes w' !! this
      = Some (diagnosticFindDuplicateFunctionDeclarations this (platformScope w)
                (getCallableContainersByLowerName (sort compareCallables callables))
              ++ classDiagnostics
              ++ flat_map (λ kf, fileDiagnostics this kf.2
                                   (getCallableContainersByLowerName
                                      (sort compareCallables callables)))
                   (obj_entries (files s))).
Proof.
  intros Hs Hrun. unfold validateSelf in Hrun. cbv zeta in Hrun.
  apply bind_Some in Hrun as (callables & Hcallables & Hrun).
  match type of Hrun with
  | context [validateClasses this ?w0] => set (w2 := w0) in *
  end.
  exists callables, (BsClassValidator_diagnostics w2 this).
  split; [exact Hcallables|].
  apply bind_Some in Hrun as (s3 & Hs3 & Hrun). injection Hrun as <-.
  assert (Hs3' : scopes (validateClasses this w2) !! this
                 = Some (push_diagnostics (BsClassValidator_diagnostics w2 this)
                           (get_classLookup
                              (push_diagnostics
                                 (diagnosticFindDuplicateFunctionDeclarations this
                                    (platformScope w)
                                    (getCallableContainersByLowerName
                                       (sort compareCallables callables)))
                                 (with_diagnostics [] s))).2)).
  { unfold validateClasses. subst w2. by rewrite !modify_lookup_eq, Hs. }
  rewrite Hs3' in Hs3. injection Hs3 as <-.
  rewrite modify_lookup_eq.
  erewrite foldl_push_diagnostics; [|exact Hs3'].
  cbn [fmap option_fmap option_map]. f_equal.
  unfold get_classLookup. destruct (_classLookup _); simpl; by rewrite <- app_assoc.
Qed.

(** Whatever the checks find is on the scope when the validation is
    over: the diagnostics of every bucket, and those of every member file. *)
Lemma validateSelf_keeps_every_diagnostic `{Collaborators} (fuel : nat) (this : ScopeId)
    (w w' : World) (s : Scope) :
  scopes w !! this = Some s →
  validateSelf fuel this w = Some w' →
  ∃ callables found,
    getAllCallables fuel (modify this (with_diagnostics []) w) this = Some callables
    ∧ diagnostics <$> scopes w' !! this = Some found
    ∧ (∀ lowerName containers d,
         (lowerName, containers)
           ∈ obj_entries (getCallableContainersByLowerName (sort compareCallables callables)) →
         d ∈ bucketDiagnostics this (platformScope w) lowerName containers →
         d ∈ found)
    ∧ (∀ entry d,
         entry ∈ obj_entries (files s) →
         d ∈ fileDiagnostics this entry.2
               (getCallableContainersByLowerName (sort compareCallables callables)) →
         d ∈ found).
Proof.
  intros Hs Hrun.
  destruct (validateSelf_diagnostics fuel this w w' s Hs Hrun)
    as (callables & classDiagnostics & Hcallables & Hfound).
  exists callables. eexists. split; [exact Hcallables|]. split; [exact Hfound|]. split.
  - intros lowerName containers d Hbucket Hd. apply elem_of_app. left.
    by eapply bucketDiagnostics_included.
  - intros entry d Hentry Hd. apply elem_of_app. right. apply elem_of_app. right.
    apply list_elem_of_In, in_flat_map. exists entry. by rewrite <- !list_elem_of_In.
Qed.

(** ** [validate] returns *)

Lemma chainDepth_sameLinks (w w' : World) (id : ScopeId) (n : nat) :
  sameLinks w w' → chainDepth w id n → chainDepth w' id n.
Proof.
  intros L Hd. induction Hd as [this s Hs Hp|this s parent n Hs Hp _ IH].
  - destruct (sameLinks_parentScope _ _ _ _ L Hs) as (s' & Hs' & Hl).
    eapply chainDepth_root; [exact Hs'|]. unfold links in Hl. congruence.
  - destruct (sameLinks_parentScope _ _ _ _ L Hs) as (s' & Hs' & Hl).
    eapply chainDepth_step; [exact Hs'| |exact IH]. unfold links in Hl. congruence.
Qed.

Lemma chainDepth_is_Some (w : World) (id : ScopeId) (n : nat) :
  chainDepth w id n → is_Some (scopes w !! id).
Proof. intros Hd. destruct Hd; by eexists. Qed.

Lemma getAllCallables_total (w : World) (this : ScopeId) (n : nat) :
  chainDepth w this n → ∀ fuel, n < fuel → is_Some (getAllCallables fuel w this).
Proof.
  intros Hd. induction Hd as [this s Hs Hp|this s parent n Hs Hp _ IH];
    intros [|fuel] Hfuel; try lia; simpl; rewrite Hs; simpl; rewrite Hp.
  - by eexists.
  - destruct (IH fuel ltac:(lia)) as [inherited ->]. by eexists.
Qed.

Lemma validateSelf_total `{Collaborators} (w : World) (this : ScopeId) (n fuel : nat) :
  chainDepth w this n → n < fuel → is_Some (validateSelf fuel this w).
Proof.
  intros Hd Hfuel. unfold validateSelf. cbv zeta.
  assert (T01 : touchesOnly this w (modify this (with_diagnostics []) w))
    by (by apply modify_touchesOnly).
  destruct (getAllCallables_total _ this n
              (chainDepth_sameLinks _ _ _ _ (proj1 T01) Hd) fuel Hfuel)
    as [callables ->].
  cbn [mbind option_bind].
  match goal with
  | |- context [validateClasses this ?w0] => set (w2 := w0)
  end.
  assert (T12 : touchesOnly this (modify this (with_diagnostics []) w) w2)
    by (by apply modify_touchesOnly).
  assert (T23 : touchesOnly this w2 (validateClasses this w2)).
  { apply modify_touchesOnly. intros s0.
    by rewrite links_push_diagnostics, links_get_classLookup. }
  destruct (sameLinks_is_Some w (validateClasses this w2) this) as [s ->].
  { eapply sameLinks_trans; [apply T01|]. eapply sameLinks_trans; [apply T12|apply T23]. }
  { by eapply chainDepth_is_Some. }
  by eexists.
Qed.

(** Enough fuel: a parent chain of [n] links is validated with any budget
    above [n + 1]. *)
Lemma validate_total `{Collaborators} (w : World) (this : ScopeId) (n : nat) :
  chainDepth w this n →
  ∀ fuel force, n + 1 < fuel → is_Some (validate fuel this force w).
Proof.
  intros Hd. induction Hd as [this s Hs Hp|this s parent n Hs Hp Hd IH];
    intros [|fuel] force Hfuel; try lia.
  - assert (Hbase : ∀ force', is_Some (Scope_validate (validate fuel) fuel this force' w)).
    { intros force'. unfold Scope_validate. rewrite Hs. cbn [mbind option_bind].
      destruct (isValidated s && negb force')%bool; [by eexists|].
      unfold validateParentFirst. rewrite Hp. cbn [mbind option_bind].
      eapply validateSelf_total; [by eapply chainDepth_root|lia]. }
    simpl. rewrite Hs. cbn [mbind option_bind].
    destruct (xmlFile s) as [x|]; [|apply Hbase].
    unfold XmlScope_validate. rewrite Hs. cbn [mbind option_bind].
    destruct (negb (isValidated s)); [|by eexists].
    destruct (Hbase false) as [w1 Hw1]. rewrite Hw1. cbn [mbind option_bind]. cbv zeta.
    unfold Scope_validate in Hw1. rewrite Hs in Hw1. cbn [mbind option_bind] in Hw1.
    assert (L : sameLinks w w1).
    { destruct (isValidated s && negb false)%bool; [injection Hw1 as <-; apply sameLinks_refl|].
      apply bind_Some in Hw1 as (w0 & Hparent & Hself).
      unfold validateParentFirst in Hparent. rewrite Hp in Hparent. injection Hparent as <-.
      apply validateSelf_inv in Hself as [[? _] _]. done. }
    match goal with
    | |- is_Some (scopes ?w3 !! this ≫= _) =>
        destruct (sameLinks_is_Some w w3 this) as [s3 ->]
    end; [|by eexists|by eexists].
    eapply sameLinks_trans; [exact L|].
    eapply sameLinks_trans; [|by apply modify_sameLinks]. by apply modify_sameLinks.
  - assert (Hbase : ∀ force', ∃ w1,
              Scope_validate (validate fuel) fuel this force' w = Some w1 ∧ sameLinks w w1).
    { intros force'. unfold Scope_validate. rewrite Hs. cbn [mbind option_bind].
      destruct (isValidated s && negb force')%bool;
        [eexists; split; [done|apply sameLinks_refl]|].
      assert (Hparent : ∃ w0, validateParentFirst (validate fuel) s force' w = Some w0
                              ∧ sameLinks w w0).
      { unfold validateParentFirst. rewrite Hp.
        destruct (chainDepth_is_Some _ _ _ Hd) as [p Hparent]. rewrite Hparent.
        cbn [mbind option_bind].
        destruct (negb (isValidated p)); [|eexists; split; [done|apply sameLinks_refl]].
        destruct (IH fuel force' ltac:(lia)) as [w0 Hw0]. exists w0. split; [done|].
        by apply validate_inv in Hw0 as [? _]. }
      destruct Hparent as (w0 & -> & L0). cbn [mbind option_bind].
      destruct (validateSelf_total w0 this (S n) fuel) as [w1 Hw1];
        [eapply chainDepth_sameLinks; [exact L0|by eapply chainDepth_step]|lia|].
      exists w1. split; [done|].
      apply validateSelf_inv in Hw1 as [[? _] _]. by eapply sameLinks_trans. }
    simpl. rewrite Hs. cbn [mbind option_bind].
    destruct (xmlFile s) as [x|];
      [|destruct (Hbase force) as (w1 & -> & _); by eexists].
    unfold XmlScope_validate. rewrite Hs. cbn [mbind option_bind].
    destruct (negb (isValidated s)); [|by eexists].
    destruct (Hbase false) as (w1 & -> & L). cbn [mbind option_bind]. cbv zeta.
    match goal with
    | |- is_Some (scopes ?w3 !! this ≫= _) =>
        destruct (sameLinks_is_Some w w3 this) as [s3 ->]
    end; [|by eexists|by eexists].
    eapply sameLinks_trans; [exact L|].
    eapply sameLinks_trans; [|by apply modify_sameLinks]. by apply modify_sameLinks.
Qed.

(** ** Reading diagnostics and validating *)




(** ** The setter of [isValidated] and the cached lookups *)

(** C9. Every assignment to [isValidated], of [false] or of [true], stores
    the value and deletes both cached lookups; the assignment of [true] that
    ends a validation that ran leaves both lookups absent, whatever the
    validation had cached; and the next read of a lookup builds it again
    from the member files and caches it. *)
Theorem isValidated_setter_deletes_lookups `{Collaborators} :
  (∀ value s,
     isValidated (set_isValidated value s) = value
     ∧ _namespaceLookup (set_isValidated value s) = None
     ∧ _classLookup (set_isValidated value s) = None)
  ∧ (∀ fuel this force w w' s,
       validate fuel this force w = Some w' →
       scopes w !! this = Some s → validationRuns s force →
       ∃ s', scopes w' !! this = Some s'
             ∧ isValidated s' = true
             ∧ _namespaceLookup s' = None
             ∧ _classLookup s' = None)
  ∧ (∀ value s,
       get_classLookup (set_isValidated value s)
       = (buildClassLookup s,
          with_classLookup (Some (buildClassLookup s)) (set_isValidated value s)))
  ∧ (∀ value s,
       get_namespaceLookup (set_isValidated value s)
       = (l ← buildNamespaceLookup s;
          Some (l, with_namespaceLookup (Some l) (set_isValidated value s)))).
Proof.
  split; [done|]. split; [|split; [done|done]].
  intros fuel this force w w' s Hrun Hs Hruns.
  apply validate_inv in Hrun as (_ & _ & Hp).
  destruct (Hp s Hs Hruns) as [[s' Hs'] _].
  exists (set_isValidated true s'). done.
Qed.

Lemma isValidated_setter_deletes_lookups_witness :
  ∃ w' s',
    @validate exampleCollaborators 3 "main" false freshWorld = Some w'
    ∧ scopes w' !! "main" = Some s'
    ∧ isValidated s' = true ∧ _namespaceLookup s' = None ∧ _classLookup s' = None.
Proof.
  destruct (@isValidated_setter_deletes_lookups exampleCollaborators) as (_ & Hend & _).
  destruct (@validate exampleCollaborators 3 "main" false freshWorld) as [w'|] eqn:Hw';
    [|by vm_compute in Hw'].
  destruct (Hend 3 "main" false freshWorld w'
              (with_parentScopeHandles [("global", 0)]
                 (with_parentScope (Some "global") (new_Scope (λ _, true))))
              Hw' eq_refl (or_introl eq_refl))
    as (s' & Hs' & Hflag & Hns & Hcl).
  by exists w', s'.
Defined.

(** ** Membership and the "invalidated" event *)

(** Adding a file the scope does not have yet marks the scope dirty and
    emits nothing. *)
Lemma addOrReplaceFile_fresh_emits_nothing `{Collaborators}
    (this : ScopeId) (file : File) (w : World) (s : Scope) :
  scopes w !! this = Some s →
  obj_get (files s) (file_pathAbsolute file) = None →
  ∃ w', addOrReplaceFile this file w = Some w'
        ∧ emitted w' = emitted w
        ∧ (∀ id, id ≠ this → scopes w' !! id = scopes w !! id)
        ∧ scopes w' !! this
          = Some (with_files (obj_set (file_pathAbsolute file) file (files s))
                    (set_isValidated false s)).
Proof.
  intros Hs Hfresh. unfold addOrReplaceFile. cbv zeta.
  rewrite modify_lookup_eq, Hs. cbn [fmap option_fmap option_map mbind option_bind].
  change (files (set_isValidated false s)) with (files s). rewrite Hfresh.
  cbn [mbind option_bind]. eexists. split; [done|]. split; [done|]. split.
  - intros id Hid. by rewrite !modify_lookup_ne.
  - by rewrite !modify_lookup_eq, Hs.
Qed.

(** Removing a member file emits "invalidated" once. *)
Lemma removeFile_member_emits `{Collaborators}
    (this : ScopeId) (file ctxFile : File) (w : World) (s : Scope) :
  scopes w !! this = Some s →
  getFile s (file_pathAbsolute file) = Some ctxFile →
  ∃ w', removeFile this file w = Some w'
        ∧ emitted w' = emitted w ++ [ScopeEvent this "invalidated"].
Proof.
  intros Hs Hmember. unfold removeFile. cbv zeta.
  rewrite modify_lookup_eq, Hs. cbn [fmap option_fmap option_map mbind option_bind].
  change (getFile (set_isValidated false s) (file_pathAbsolute file))
    with (getFile s (file_pathAbsolute file)).
  rewrite Hmember. unfold emit.
  rewrite !modify_lookup_eq, Hs. cbn [fmap option_fmap option_map mbind option_bind].
  eexists. split; [done|].
  rewrite bool_decide_eq_true_2 by done.
  match goal with
  | |- emitted (foldl ?g ?w0 ?l) = _ =>
      assert (Hfold : ∀ l' w1, emitted (foldl g w1 l') = emitted w1)
  end.
  { induction l' as [|a l' IH]; intros w1; simpl; [done|]. by rewrite IH. }
  by rewrite Hfold.
Qed.

(** C4, on the code. Adding a file the scope does not have yet marks the
    scope dirty, emits no event and writes to no other scope, while removing
    a member file emits "invalidated". In a validated program, adding a
    first file to "lib", directly or through the handler of the program's
    "file-added" (the file matches), stores the file and marks "lib" dirty,
    yet no event is emitted and the scope "app" below it stays validated;
    replacing that file, or removing it, does emit "invalidated" and marks
    "app" dirty. *)
Theorem addOrReplaceFile_fresh_file_is_silent :
  (∀ (C : Collaborators) this file w s,
     scopes w !! this = Some s →
     obj_get (files s) (file_pathAbsolute file) = None →
     ∃ w', addOrReplaceFile this file w = Some w'
           ∧ emitted w' = emitted w
           ∧ (∀ id, id ≠ this → scopes w' !! id = scopes w !! id)
           ∧ isValidated <$> scopes w' !! this = Some false)
  ∧ (∀ (C : Collaborators) this file ctxFile w s,
       scopes w !! this = Some s →
       getFile s (file_pathAbsolute file) = Some ctxFile →
       ∃ w', removeFile this file w = Some w'
             ∧ emitted w' = emitted w ++ [ScopeEvent this "invalidated"])
  ∧ (
    (flagOf validatedWorld "lib" = Some true
     ∧ flagOf validatedWorld "app" = Some true
     ∧ memberOf validatedWorld "lib" mainFile = Some false
     ∧ eventsOf validatedWorld = Some [])
    ∧ (memberOf afterFreshAdd "lib" mainFile = Some true
       ∧ eventsOf (validatedWorld ≫= @onFileAdded exampleCollaborators "lib" mainFile) = Some []
       ∧ eventsOf afterFreshAdd = Some []
       ∧ flagOf afterFreshAdd "lib" = Some false
       ∧ flagOf afterFreshAdd "app" = Some true)
    ∧ (eventsOf afterReplace = Some [ScopeEvent "lib" "invalidated"]
       ∧ flagOf afterReplace "app" = Some false)
    ∧ (eventsOf afterRemove = Some [ScopeEvent "lib" "invalidated"]
       ∧ memberOf afterRemove "lib" mainFile = Some false
       ∧ flagOf afterRemove "app" = Some false)).
Proof.
  split; [|split].
  - intros C this file w s Hs Hfresh.
    destruct (addOrReplaceFile_fresh_emits_nothing this file w s Hs Hfresh)
      as (w' & Hadd & Hevents & Hothers & Hthis).
    exists w'. split; [done|]. split; [done|]. split; [done|]. by rewrite Hthis.
  - intros C this file ctxFile w s Hs Hmember.
    by eapply removeFile_member_emits.
  - repeat split; vm_compute; reflexivity.
Qed.

(** ** Resolution of the parent of a descriptor scope *)

Lemma modify_keeps {A} (g : Scope → A) (id id' : ScopeId) (f : Scope → Scope) (w : World) :
  (∀ s, g (f s) = g s) →
  g <$> scopes (modify id f w) !! id' = g <$> scopes w !! id'.
Proof.
  intros Hf. rewrite modify_lookup. case_decide as Hid; [subst id'|done].
  destruct (scopes w !! id) as [s|]; simpl; [by rewrite Hf|done].
Qed.

Lemma disconnects_keep {A} (g : Scope → A) (handles : list (ScopeId * nat)) (w : World) :
  (∀ s l, g (with_listeners l s) = g s) →
  (∀ id, g <$> scopes (foldl (λ w ph, disconnect ph.1 ph.2 w) w handles) !! id
         = g <$> scopes w !! id)
  ∧ emitted (foldl (λ w ph, disconnect ph.1 ph.2 w) w handles) = emitted w
  ∧ platformScope (foldl (λ w ph, disconnect ph.1 ph.2 w) w handles) = platformScope w.
Proof.
  intros Hg. revert w. induction handles as [|ph handles IH]; intros w; simpl; [done|].
  destruct (IH (disconnect ph.1 ph.2 w)) as (Hk & He & Hpl).
  split; [|split; [by rewrite He|by rewrite Hpl]].
  intros id. rewrite Hk. unfold disconnect. apply modify_keeps. intros s. apply Hg.
Qed.


Lemma detachParent_total (this : ScopeId) (w : World) :
  is_Some (scopes w !! this) → is_Some (detachParent this w).
Proof. intros [s Hs]. unfold detachParent. rewrite Hs. by eexists. Qed.

Lemma truthy_Some (o : option string) :
  truthy o = true ↔ ∃ name, o = Some name ∧ name ≠ "".
Proof.
  destruct o as [name|]; simpl.
  - destruct (String.eqb_spec name ""); simpl; split.
    + done.
    + intros (? & [= <-] & ?). done.
    + intros _. by exists name.
    + done.
  - split; [done|]. by intros (? & ? & _).
Qed.

Lemma attachParentScope_inv (this parent : ScopeId) (w : World) :
  is_Some (scopes w !! parent) →
  ∃ w', attachParentScope this parent w = Some w'
        ∧ emitted w' = emitted w
        ∧ ∀ id, xmlFile <$> scopes w' !! id = xmlFile <$> scopes w !! id.
Proof.
  intros Hparent. unfold attachParentScope, on_invalidated. cbv zeta. cbn [fst snd].
  set (w1 := modify this (with_parentScope (Some parent)) w).
  set (w2 := mkWorld
               (alter (λ s, with_listeners (listeners s ++ [(nextHandle w1, this)]) s)
                  parent (scopes w1))
               (platformScope w1) (S (nextHandle w1)) (emitted w1)).
  change w2 with (modify parent
                    (λ s, with_listeners (listeners s ++ [(nextHandle w1, this)]) s)
                    (mkWorld (scopes w1) (platformScope w1) (S (nextHandle w1)) (emitted w1))).
  set (w2' := mkWorld (scopes w1) (platformScope w1) (S (nextHandle w1)) (emitted w1)).
  set (w3 := modify this (with_parentScopeHandles [(parent, nextHandle w1)])
               (modify parent
                  (λ s, with_listeners (listeners s ++ [(nextHandle w1, this)]) s) w2')).
  assert (Hk : ∀ id, xmlFile <$> scopes w3 !! id = xmlFile <$> scopes w !! id).
  { intros id. subst w3. rewrite modify_keeps by done. rewrite modify_keeps by done.
    subst w2' w1. simpl. fold (modify this (with_parentScope (Some parent)) w).
    change (alter (with_parentScope (Some parent)) this (scopes w))
      with (scopes (modify this (with_parentScope (Some parent)) w)).
    by rewrite modify_keeps. }
  destruct (scopes w3 !! parent) as [p|] eqn:Hp.
  - cbn [mbind option_bind]. eexists. split; [done|].
    destruct (negb (isValidated p)); [|by split].
    split; [done|]. intros id. by rewrite modify_keeps.
  - destruct Hparent as [p0 Hp0]. specialize (Hk parent). by rewrite Hp, Hp0 in Hk.
Qed.



(** ** Dotted names *)
















(** ** The namespace lookup: the first loop *)

Lemma obj_wf_empty {V} : obj_wf (@obj_empty V).
Proof.
  split; [constructor|]. intros k. unfold obj_empty. simpl. rewrite lookup_empty.
  split; [by intros ?%elem_of_nil|by intros [? ?]].
Qed.











Lemma foldM_cons_Some {A B} (f : A → B → option A) (a a' : A) (b : B) (l : list B) :
  f a b = Some a' → foldM f a (b :: l) = foldM f a' l.
Proof. intros Hf. unfold foldM. simpl. by rewrite Hf. Qed.



(** ** The namespace lookup: the second loop *)




(** The lookup of a scope whose one file declares "NameA.NameB.NameC": the
    keys in the order a [for ... in] loop meets them, and the children each
    container records. *)
Lemma namespaceLookup_of_NameA_NameB_NameC :
  (λ L, (λ k, (k, (λ c, (fullName c, obj_entries (namespaces c))) <$> obj_get L k))
          <$> obj_keys L)
    <$> buildNamespaceLookupOf [mkNamespace "NameA.NameB.NameC" []]
  = Some [("namea", Some ("NameA", [("nameb", "namea.nameb")]));
          ("namea.nameb", Some ("NameA.NameB", [("namec", "namea.nameb.namec")]));
          ("namea.nameb.namec", Some ("NameA.NameB.NameC", []))].
Proof. vm_compute. reflexivity. Qed.

(* ================================================================== *)
(** * Part III: further properties *)
(* ================================================================== *)

(** ** The two checks on the calls of a file *)

Lemma omap_length_le {A B} (f : A → option B) (l : list A) :
  (List.length (omap f l) ≤ List.length l)%nat.
Proof.
  induction l as [|a l IH]; [done|]. cbn. destruct (f a); cbn; lia.
Qed.

Lemma omap_exclusive_length {A B C} (f : A → option B) (g : A → option C) (l : list A) :
  (∀ a, f a = None ∨ g a = None) →
  (List.length (omap f l) + List.length (omap g l) ≤ List.length l)%nat.
Proof.
  intros Hfg. induction l as [|a l IH]; [done|]. cbn.
  destruct (Hfg a) as [-> | ->].
  - destruct (g a); cbn; lia.
  - destruct (f a); cbn; lia.
Qed.

Lemma call_diagnostics_exclusive (this : ScopeId) (file : File)
    (buckets : JsObj (list CallableContainer)) (c : FunctionCall) :
  callToUnknownFunctionDiagnostic this file buckets c = None
  ∨ mismatchArgumentCountDiagnostic file buckets c = None.
Proof.
  unfold callToUnknownFunctionDiagnostic, mismatchArgumentCountDiagnostic. cbv zeta.
  destruct (firstCallable buckets (toLowerCase (call_name c))) as [known|].
  - left. by destruct (getFunctionScopeAtPosition _ _ ≫= _).
  - by right.
Qed.

(** X1. No call gets both errors: a call reported as a call to an unknown
    function is not checked for its argument count, and a call whose
    argument count is reported has a callable to be checked against; so a
    file gets at most one of the two errors per call. The argument count
    check never asks for the local variables: it reads the file only for
    the file the diagnostic is reported on. *)
Theorem unknown_call_and_argument_count_exclude_each_other (this : ScopeId) (file : File)
    (buckets : JsObj (list CallableContainer)) :
  (∀ c, callToUnknownFunctionDiagnostic this file buckets c = None
        ∨ mismatchArgumentCountDiagnostic file buckets c = None)
  ∧ (List.length (diagnosticDetectCallsToUnknownFunctions this file buckets)
     + List.length (diagnosticDetectFunctionCallsWithWrongParamCount file buckets)
     ≤ List.length (functionCalls (file_common file)))%nat
  ∧ (∀ file' c, file_id (file_common file') = file_id (file_common file) →
       mismatchArgumentCountDiagnostic file' buckets c
       = mismatchArgumentCountDiagnostic file buckets c).
Proof.
  split; [intros c; apply call_diagnostics_exclusive|]. split.
  - apply omap_exclusive_length. intros c. apply call_diagnostics_exclusive.
  - intros file' c Hid. unfold mismatchArgumentCountDiagnostic. by rewrite Hid.
Qed.

(** ** Local variables named like functions *)

(** X2. What [diagnosticDetectShadowedLocalVars] reports for a variable
    declaration is decided by its lower-cased name and by whether its type
    is a function type. A name of the platform table wins over the buckets:
    a function-typed variable gets the "stdlib" warning and any other
    variable nothing, whatever the scope declares. Off the platform table, a
    name that has a bucket gets the "scope" warning when function-typed and
    the shadowed-by-function warning otherwise, and a name without a bucket
    gets nothing. Every warning is on the name of the declaration, and there
    is at most one per declaration. *)
Theorem shadowed_local_variable_rules `{Collaborators} (file : File)
    (buckets : JsObj (list CallableContainer)) :
  (∀ v, let lowerVarName := toLowerCase (var_name v) in
        let warning d :=
          Some (mkDiagnostic d (var_nameRange v) (file_id (file_common file))) in
        shadowedLocalVarDiagnostic file buckets v
        = if bool_decide (is_Some (platformCallableMap !! lowerVarName)) then
            if instanceof_FunctionType (var_type v)
            then warning (localVarFunctionShadowsParentFunction "stdlib")
            else None
          else if bool_decide (is_Some (obj_get buckets lowerVarName)) then
            if instanceof_FunctionType (var_type v)
            then warning (localVarFunctionShadowsParentFunction "scope")
            else warning localVarShadowedByScopedFunction
          else None)
  ∧ (List.length (diagnosticDetectShadowedLocalVars file buckets)
     ≤ List.length (fileVariableDeclarations file))%nat
  ∧ ∀ d, d ∈ diagnosticDetectShadowedLocalVars file buckets →
      ∃ v, v ∈ fileVariableDeclarations file
           ∧ range d = var_nameRange v
           ∧ shadowedLocalVarDiagnostic file buckets v = Some d.
Proof.
  split; [|split].
  - intros v. cbv zeta. unfold shadowedLocalVarDiagnostic.
    destruct (platformCallableMap !! toLowerCase (var_name v)) as [p|];
      destruct (obj_get buckets (toLowerCase (var_name v))) as [b|];
      destruct (instanceof_FunctionType (var_type v)); simpl;
      repeat (rewrite bool_decide_eq_true_2 by (by eexists));
      repeat (rewrite bool_decide_eq_false_2 by (by intros [? ?])); reflexivity.
  - unfold diagnosticDetectShadowedLocalVars, fileVariableDeclarations.
    induction (functionScopes (file_common file)) as [|fs l IH]; simpl; [done|].
    rewrite !length_app.
    pose proof (omap_length_le (shadowedLocalVarDiagnostic file buckets)
                  (variableDeclarations fs)). lia.
  - intros d Hd. unfold diagnosticDetectShadowedLocalVars in Hd.
    apply list_elem_of_In, in_flat_map in Hd as (fs & Hfs & Hd).
    apply list_elem_of_In, list_elem_of_omap in Hd as (v & Hv & Hd).
    exists v. split; [|split; [|done]].
    + unfold fileVariableDeclarations. apply list_elem_of_In, in_flat_map.
      exists fs. split; [done|]. by apply list_elem_of_In.
    + unfold shadowedLocalVarDiagnostic in Hd.
      repeat case_match; simplify_eq; reflexivity.
Qed.

(** ** The class lookup *)

Lemma foldl_obj_set_last {V} (key : V → string) (l : list V) (o : JsObj V) (k : string) :
  obj_get (foldl (λ lookup x, obj_set (key x) x lookup) o l) k
  = match last (filter (λ x, key x = k) l) with
    | Some x => Some x
    | None => obj_get o k
    end.
Proof.
  revert o. induction l as [|x l IH]; intros o; simpl; [done|].
  rewrite IH. rewrite filter_cons. rewrite obj_get_set.
  case_decide as Hk.
  - rewrite last_cons. by destruct (last (filter _ l)).
  - done.
Qed.

Lemma lower_ascii_idemp (c : ascii) : lower_ascii (lower_ascii c) = lower_ascii c.
Proof. destruct c as [[] [] [] [] [] [] [] []]; vm_compute; reflexivity. Qed.

Lemma toLowerCase_idemp (s : string) : toLowerCase (toLowerCase s) = toLowerCase s.
Proof. induction s as [|c s IH]; simpl; [done|]. by rewrite lower_ascii_idemp, IH. Qed.

(** X3. The class lookup holds, under a key, the last class statement of
    the member files whose BrighterScript name lower-cases to that key: a
    later declaration replaces an earlier one of the same name, also when
    the two names differ in case. So a name is found, in whatever case
    it is asked for, exactly when a member file declares a class of that
    name up to case; and every key is in lower case. *)
Theorem classLookup_keeps_last_declaration (s : Scope) :
  (∀ k, obj_get (buildClassLookup s) k
        = last (filter (λ cls, toLowerCase (class_getName cls BrighterScript) = k)
                  (memberClassStatements s)))
  ∧ (∀ name,
       is_Some (obj_get (buildClassLookup s) (toLowerCase name))
       ↔ ∃ cls, cls ∈ memberClassStatements s
                ∧ toLowerCase (class_getName cls BrighterScript) = toLowerCase name)
  ∧ (∀ k, is_Some (obj_get (buildClassLookup s) k) → toLowerCase k = k).
Proof.
  assert (Hget : ∀ k, obj_get (buildClassLookup s) k
                      = last (filter (λ cls, toLowerCase (class_getName cls BrighterScript) = k)
                                (memberClassStatements s))).
  { intros k. unfold buildClassLookup.
    rewrite (foldl_obj_set_last (λ cls, toLowerCase (class_getName cls BrighterScript))).
    fold (memberClassStatements s). by destruct (last _). }
  assert (Hsome : ∀ k, is_Some (obj_get (buildClassLookup s) k)
                       ↔ ∃ cls, cls ∈ memberClassStatements s
                                ∧ toLowerCase (class_getName cls BrighterScript) = k).
  { intros k. rewrite Hget. split.
    - intros [cls Hlast]. apply last_Some in Hlast as [l' Hl'].
      assert (Hin : cls ∈ filter (λ cls, toLowerCase (class_getName cls BrighterScript) = k)
                            (memberClassStatements s)).
      { rewrite Hl'. apply elem_of_app. right. by apply list_elem_of_singleton. }
      apply list_elem_of_filter in Hin as [? ?]. by exists cls.
    - intros (cls & Hin & Hk).
      assert (Hf : cls ∈ filter (λ cls, toLowerCase (class_getName cls BrighterScript) = k)
                           (memberClassStatements s))
        by (by apply list_elem_of_filter).
      destruct (last (filter _ (memberClassStatements s))) as [x|] eqn:Hlast; [by eexists|].
      apply last_None in Hlast. rewrite Hlast in Hf. by apply elem_of_nil in Hf. }
  split; [exact Hget|]. split.
  - intros name. apply Hsome.
  - intros k Hk. apply Hsome in Hk as (cls & _ & <-). apply toLowerCase_idemp.
Qed.

(** ** Events and the parent link *)

Lemma set_isValidated_idemp (v : bool) (s : Scope) :
  set_isValidated v (set_isValidated v s) = set_isValidated v s.
Proof. reflexivity. Qed.

Lemma invalidate_listeners_spec (ls : list (nat * ScopeId)) (w : World) :
  let w' := foldl (λ w l, modify l.2 (set_isValidated false) w) w ls in
  emitted w' = emitted w ∧ platformScope w' = platformScope w ∧ nextHandle w' = nextHandle w
  ∧ ∀ id, scopes w' !! id
          = if bool_decide (id ∈ ls.*2) then set_isValidated false <$> scopes w !! id
            else scopes w !! id.
Proof.
  revert w. induction ls as [|l ls IH]; intros w; cbv zeta.
  - cbn [foldl]. split; [done|]. split; [done|]. split; [done|]. intros id.
    case_bool_decide as Hin; [by apply elem_of_nil in Hin|done].
  - cbn [foldl]. destruct (IH (modify l.2 (set_isValidated false) w)) as (He & Hp & Hn & Hl).
    split; [by rewrite He|]. split; [by rewrite Hp|]. split; [by rewrite Hn|].
    intros id. rewrite Hl, modify_lookup.
    destruct (decide (l.2 = id)) as [Heq|Hne].
    + rewrite (bool_decide_eq_true_2 (id ∈ (l :: ls).*2))
        by (subst id; apply list_elem_of_here).
      subst id. destruct (scopes w !! l.2) as [s|]; by case_bool_decide.
    + case_bool_decide as Hin.
      * rewrite bool_decide_eq_true_2; [done|]. by apply list_elem_of_further.
      * rewrite bool_decide_eq_false_2; [done|].
        intros [?|?]%elem_of_cons; [by subst|done].
Qed.

(** What [emit("invalidated")] does: it logs the event and assigns
    [isValidated = false] on every scope that registered a callback. *)
Lemma emit_invalidated_spec (this : ScopeId) (w : World) (s : Scope) :
  scopes w !! this = Some s →
  ∃ w', emit this "invalidated" w = Some w'
        ∧ emitted w' = emitted w ++ [ScopeEvent this "invalidated"]
        ∧ platformScope w' = platformScope w
        ∧ nextHandle w' = nextHandle w
        ∧ ∀ id, scopes w' !! id
                = if bool_decide (id ∈ listening s)
                  then set_isValidated false <$> scopes w !! id
                  else scopes w !! id.
Proof.
  intros Hs. unfold emit. rewrite Hs. cbn [mbind option_bind]. cbv zeta.
  rewrite bool_decide_eq_true_2 by done. eexists. split; [done|].
  destruct (invalidate_listeners_spec (listeners s)
              (log_event (ScopeEvent this "invalidated") w)) as (He & Hp & Hn & Hl).
  split; [by rewrite He|]. split; [by rewrite Hp|]. split; [by rewrite Hn|].
  intros id. by rewrite Hl.
Qed.

(** [attachParentScope], step by step. *)
Lemma attachParentScope_unfold (this parent : ScopeId) (w : World) :
  attachParentScope this parent w
  = let w3 := modify this (with_parentScopeHandles [(parent, nextHandle w)])
                (modify parent
                   (λ s, with_listeners (listeners s ++ [(nextHandle w, this)]) s)
                   (handleTaken (modify this (with_parentScope (Some parent)) w))) in
    p ← scopes w3 !! parent;
    Some (if negb (isValidated p) then modify this (set_isValidated false) w3 else w3).
Proof. reflexivity. Qed.

Lemma modify_field {A} (g : Scope → A) (a b : ScopeId) (f : Scope → Scope) (w : World) :
  g <$> scopes (modify a f w) !! b
  = (λ s, if decide (a = b) then g (f s) else g s) <$> scopes w !! b.
Proof.
  rewrite modify_lookup. destruct (decide (a = b)) as [->|Hne]; [|done].
  by destruct (scopes w !! b).
Qed.

Lemma handleTaken_field {A} (g : Scope → A) (b : ScopeId) (w : World) :
  g <$> scopes (handleTaken w) !! b = g <$> scopes w !! b.
Proof. reflexivity. Qed.

(** What [attachParentScope] leaves: the parent link and the one handle on
    the scope, one more callback on the parent, the flag of the scope
    lowered when the parent is not validated, and nothing else. *)
Lemma attachParentScope_spec (this parent : ScopeId) (w w1 : World) :
  attachParentScope this parent w = Some w1 →
  nextHandle w1 = S (nextHandle w)
  ∧ emitted w1 = emitted w
  ∧ platformScope w1 = platformScope w
  ∧ (∀ a, listeners <$> scopes w1 !! a
          = (λ s, if decide (a = parent)
                  then listeners s ++ [(nextHandle w, this)] else listeners s)
            <$> scopes w !! a)
  ∧ (∀ a, parentScope <$> scopes w1 !! a
          = (λ s, if decide (a = this) then Some parent else parentScope s)
            <$> scopes w !! a)
  ∧ (∀ a, parentScopeHandles <$> scopes w1 !! a
          = (λ s, if decide (a = this) then [(parent, nextHandle w)]
                  else parentScopeHandles s)
            <$> scopes w !! a)
  ∧ (∀ a, a ≠ this →
       (λ s, (isValidated s, _namespaceLookup s, _classLookup s)) <$> scopes w1 !! a
       = (λ s, (isValidated s, _namespaceLookup s, _classLookup s)) <$> scopes w !! a)
  ∧ (∀ a, (λ s, (files s, xmlFile s, diagnostics s)) <$> scopes w1 !! a
          = (λ s, (files s, xmlFile s, diagnostics s)) <$> scopes w !! a)
  ∧ ∃ p, scopes w !! parent = Some p
         ∧ (λ s, (isValidated s, _namespaceLookup s, _classLookup s)) <$> scopes w1 !! this
           = (λ s, if isValidated p
                   then (isValidated s, _namespaceLookup s, _classLookup s)
                   else (false, None, None)) <$> scopes w !! this.
Proof.
  rewrite attachParentScope_unfold. cbv zeta.
  match goal with
  | |- context [scopes ?w0 !! parent ≫= _] => set (w3 := w0)
  end.
  intros Hrun. apply bind_Some in Hrun as (p3 & Hp3 & Hrun).
  assert (Hfield : ∀ {A} (g : Scope → A) a,
            g <$> scopes w3 !! a
            = (λ s, if decide (this = a)
                    then g (with_parentScopeHandles [(parent, nextHandle w)]
                              (if decide (parent = a)
                               then with_listeners
                                      (listeners (with_parentScope (Some parent) s)
                                       ++ [(nextHandle w, this)])
                                      (with_parentScope (Some parent) s)
                               else with_parentScope (Some parent) s))
                    else if decide (parent = a)
                         then g (with_listeners (listeners s ++ [(nextHandle w, this)]) s)
                         else g s) <$> scopes w !! a).
  { intros A g a. subst w3. rewrite modify_field, modify_field, handleTaken_field, modify_field.
    destruct (scopes w !! a) as [s|]; [|done]. simpl. f_equal.
    destruct (decide (this = a)); destruct (decide (parent = a)); done. }
  assert (Hp : ∃ p, scopes w !! parent = Some p ∧ isValidated p3 = isValidated p).
  { pose proof (Hfield _ isValidated parent) as Hf. rewrite Hp3 in Hf.
    destruct (scopes w !! parent) as [p|]; [|done]. exists p. split; [done|].
    simpl in Hf. injection Hf as ->.
    destruct (decide (this = parent)); rewrite decide_True by done; done. }
  destruct Hp as (p & Hp & Hflag). rewrite Hflag in Hrun.
  assert (Hfield1 : ∀ {A} (g : Scope → A) a,
            g <$> scopes w1 !! a
            = (λ s, if (negb (isValidated p) && bool_decide (this = a))%bool
                    then g (set_isValidated false s) else g s) <$> scopes w3 !! a).
  { intros A g a. destruct (isValidated p); injection Hrun as <-; cbn [negb andb].
    - done.
    - rewrite modify_field. destruct (scopes w3 !! a); [|done]. simpl. f_equal.
      by case_bool_decide; [rewrite decide_True|rewrite decide_False]. }
  assert (Hw1 : nextHandle w1 = S (nextHandle w) ∧ emitted w1 = emitted w
                ∧ platformScope w1 = platformScope w).
  { destruct (negb (isValidated p)); injection Hrun as <-; done. }
  destruct Hw1 as (Hn & He & Hpl).
  split; [done|]. split; [done|]. split; [done|].
  split; [|split; [|split; [|split; [|split]]]].
  - intros a. rewrite Hfield1.
    rewrite (Hfield _ (λ s, if (negb (isValidated p) && bool_decide (this = a))%bool
                            then listeners (set_isValidated false s) else listeners s)).
    destruct (scopes w !! a) as [s|]; [|done]. simpl. f_equal.
    destruct (negb (isValidated p) && bool_decide (this = a))%bool;
      destruct (decide (this = a)); destruct (decide (parent = a));
      destruct (decide (a = parent)); try done; by subst.
  - intros a. rewrite Hfield1.
    rewrite (Hfield _ (λ s, if (negb (isValidated p) && bool_decide (this = a))%bool
                            then parentScope (set_isValidated false s) else parentScope s)).
    destruct (scopes w !! a) as [s|]; [|done]. simpl. f_equal.
    destruct (negb (isValidated p) && bool_decide (this = a))%bool;
      destruct (decide (this = a)); destruct (decide (parent = a));
      destruct (decide (a = this)); try done; by subst.
  - intros a. rewrite Hfield1.
    rewrite (Hfield _ (λ s, if (negb (isValidated p) && bool_decide (this = a))%bool
                            then parentScopeHandles (set_isValidated false s)
                            else parentScopeHandles s)).
    destruct (scopes w !! a) as [s|]; [|done]. simpl. f_equal.
    destruct (negb (isValidated p) && bool_decide (this = a))%bool;
      destruct (decide (this = a)); destruct (decide (parent = a));
      destruct (decide (a = this)); try done; by subst.
  - intros a Ha. rewrite Hfield1.
    rewrite bool_decide_eq_false_2 by done. rewrite andb_false_r.
    rewrite (Hfield _ (λ s, (isValidated s, _namespaceLookup s, _classLookup s))).
    destruct (scopes w !! a) as [s|]; [|done]. simpl. f_equal.
    rewrite decide_False by done. by destruct (decide (parent = a)).
  - intros a. rewrite Hfield1.
    rewrite (Hfield _ (λ s, if (negb (isValidated p) && bool_decide (this = a))%bool
                            then (files (set_isValidated false s),
                                  xmlFile (set_isValidated false s),
                                  diagnostics (set_isValidated false s))
                            else (files s, xmlFile s, diagnostics s))).
    destruct (scopes w !! a) as [s|]; [|done]. simpl. f_equal.
    destruct (negb (isValidated p) && bool_decide (this = a))%bool;
      destruct (decide (this = a)); destruct (decide (parent = a)); done.
  - exists p. split; [done|]. rewrite Hfield1.
    rewrite bool_decide_eq_true_2 by done. rewrite andb_true_r.
    rewrite (Hfield _ (λ s, if negb (isValidated p)
                            then (isValidated (set_isValidated false s),
                                  _namespaceLookup (set_isValidated false s),
                                  _classLookup (set_isValidated false s))
                            else (isValidated s, _namespaceLookup s, _classLookup s))).
    destruct (scopes w !! this) as [s|]; [|done]. simpl. f_equal.
    rewrite decide_True by done.
    destruct (isValidated p); destruct (decide (parent = this)); done.
Qed.

Lemma disconnects_listeners (handles : list (ScopeId * nat)) (w : World) (a : ScopeId) :
  listeners <$> scopes (foldl (λ w ph, disconnect ph.1 ph.2 w) w handles) !! a
  = remaining handles a <$> (listeners <$> scopes w !! a).
Proof.
  revert w. induction handles as [|ph handles IH]; intros w.
  - cbn [foldl]. unfold remaining. cbn [foldl]. by destruct (scopes w !! a).
  - cbn [foldl]. rewrite IH. unfold disconnect. rewrite modify_field.
    destruct (scopes w !! a) as [s|]; [|done]. cbn [fmap option_fmap option_map].
    unfold remaining. cbn [foldl]. by destruct (decide (ph.1 = a)).
Qed.

(** What [detachParent] leaves: the callbacks of its handles are gone, the
    parent is the platform scope unless the scope is the platform scope
    itself, and nothing else has changed. *)
Lemma detachParent_spec (this : ScopeId) (w w2 : World) :
  detachParent this w = Some w2 →
  ∃ s, scopes w !! this = Some s
    ∧ nextHandle w2 = nextHandle w
    ∧ emitted w2 = emitted w
    ∧ platformScope w2 = platformScope w
    ∧ (∀ a, listeners <$> scopes w2 !! a
            = remaining (parentScopeHandles s) a <$> (listeners <$> scopes w !! a))
    ∧ (∀ a, parentScope <$> scopes w2 !! a
            = (λ sa, if (bool_decide (a = this) && bool_decide (platformScope w ≠ this))%bool
                     then Some (platformScope w) else parentScope sa) <$> scopes w !! a)
    ∧ (∀ a, (λ s, (isValidated s, _namespaceLookup s, _classLookup s, parentScopeHandles s,
                   files s, xmlFile s, diagnostics s)) <$> scopes w2 !! a
            = (λ s, (isValidated s, _namespaceLookup s, _classLookup s, parentScopeHandles s,
                     files s, xmlFile s, diagnostics s)) <$> scopes w !! a).
Proof.
  unfold detachParent. intros Hrun. apply bind_Some in Hrun as (s & Hs & Hrun).
  cbv zeta in Hrun. exists s. split; [done|].
  set (w1 := foldl (λ w ph, disconnect ph.1 ph.2 w) w (parentScopeHandles s)) in *.
  assert (Hw1 : nextHandle w1 = nextHandle w ∧ emitted w1 = emitted w
                ∧ platformScope w1 = platformScope w).
  { assert (Hany : ∀ hs w0, nextHandle (foldl (λ w ph, disconnect ph.1 ph.2 w) w0 hs)
                            = nextHandle w0
                            ∧ emitted (foldl (λ w ph, disconnect ph.1 ph.2 w) w0 hs)
                              = emitted w0
                            ∧ platformScope (foldl (λ w ph, disconnect ph.1 ph.2 w) w0 hs)
                              = platformScope w0).
    { clear. induction hs as [|ph hs IH]; intros w0; cbn [foldl]; [done|].
      destruct (IH (disconnect ph.1 ph.2 w0)) as (-> & -> & ->). done. }
    apply Hany. }
  destruct Hw1 as (Hn1 & He1 & Hp1). rewrite Hp1 in Hrun.
  assert (Hkeep : ∀ {A} (g : Scope → A), (∀ s l, g (with_listeners l s) = g s) →
            ∀ a, g <$> scopes w1 !! a = g <$> scopes w !! a).
  { intros A g Hg a. subst w1.
    by destruct (disconnects_keep g (parentScopeHandles s) w Hg) as (-> & _). }
  assert (Hw2 : ∀ {A} (g : Scope → A) a,
            g <$> scopes w2 !! a
            = (λ sa, if (bool_decide (a = this) && bool_decide (platformScope w ≠ this))%bool
                     then g (with_parentScope (Some (platformScope w)) sa) else g sa)
              <$> scopes w1 !! a).
  { intros A g a. case_bool_decide as Hpl; injection Hrun as <-.
    - rewrite modify_field. destruct (scopes w1 !! a); [|done]. simpl. f_equal.
      rewrite andb_true_r. by case_bool_decide; [rewrite decide_True|rewrite decide_False].
    - rewrite andb_false_r. by destruct (scopes w1 !! a). }
  assert (Hw2' : nextHandle w2 = nextHandle w ∧ emitted w2 = emitted w
                 ∧ platformScope w2 = platformScope w).
  { case_bool_decide; injection Hrun as <-; done. }
  destruct Hw2' as (? & ? & ?).
  split; [done|]. split; [done|]. split; [done|]. split; [|split].
  - intros a. rewrite Hw2.
    transitivity (listeners <$> scopes w1 !! a).
    + destruct (scopes w1 !! a); [|done]. simpl. f_equal. by destruct (_ && _)%bool.
    + subst w1. apply disconnects_listeners.
  - intros a. rewrite Hw2.
    rewrite (Hkeep _ (λ sa, if (bool_decide (a = this)
                                && bool_decide (platformScope w ≠ this))%bool
                            then parentScope (with_parentScope (Some (platformScope w)) sa)
                            else parentScope sa)); [done|].
    intros s0 l. by destruct (_ && _)%bool.
  - intros a. rewrite Hw2.
    rewrite (Hkeep _ (λ sa, if (bool_decide (a = this)
                                && bool_decide (platformScope w ≠ this))%bool
                            then _ else _)).
    + destruct (scopes w !! a); [|done]. simpl. f_equal. by destruct (_ && _)%bool.
    + intros s0 l. by destruct (_ && _)%bool.
Qed.

Lemma filter_fresh_handle (ls : list (nat * ScopeId)) (h : nat) (c : ScopeId) :
  (∀ l, l ∈ ls → l.1 < h) →
  filter (λ l : nat * ScopeId, l.1 ≠ h) (ls ++ [(h, c)]) = ls.
Proof.
  intros Hfresh. rewrite filter_app.
  rewrite (filter_singleton_False _ (h, c)); [|exact []|simpl; by intros ?].
  rewrite app_nil_r. induction ls as [|l ls IH]; [done|].
  rewrite filter_cons_True.
  - f_equal. apply IH. intros l' Hl'. apply Hfresh. by apply list_elem_of_further.
  - specialize (Hfresh l (list_elem_of_here _ _)). lia.
Qed.

Lemma removeFile_member_spec `{Collaborators}
    (this : ScopeId) (file ctxFile : File) (w : World) (s : Scope) :
  scopes w !! this = Some s →
  getFile s (file_pathAbsolute file) = Some ctxFile →
  ∃ w', removeFile this file w = Some w'
        ∧ emitted w' = emitted w ++ [ScopeEvent this "invalidated"]
        ∧ platformScope w' = platformScope w
        ∧ nextHandle w' = nextHandle w
        ∧ ∀ a, scopes w' !! a
               = (λ sa, (if bool_decide (a ∈ listening s)
                         then set_isValidated false else (λ x, x))
                          (if decide (this = a)
                           then with_files (obj_delete (file_pathAbsolute file) (files sa))
                                  (set_isValidated false sa)
                           else sa)) <$> scopes w !! a.
Proof.
  intros Hs Hmember. unfold removeFile. cbv zeta.
  rewrite modify_lookup_eq, Hs. cbn [fmap option_fmap option_map mbind option_bind].
  change (getFile (set_isValidated false s) (file_pathAbsolute file))
    with (getFile s (file_pathAbsolute file)).
  rewrite Hmember.
  match goal with
  | |- context [emit this "invalidated" ?w0] => set (w2 := w0)
  end.
  assert (Hs2 : scopes w2 !! this
                = Some (with_files (obj_delete (file_pathAbsolute file) (files s))
                          (set_isValidated false s))).
  { subst w2. by rewrite !modify_lookup_eq, Hs. }
  destruct (emit_invalidated_spec this w2 _ Hs2) as (w' & Hw' & He & Hp & Hn & Hl).
  exists w'. split; [done|]. split; [done|]. split; [done|]. split; [done|].
  intros a. rewrite Hl.
  change (listening (with_files (obj_delete (file_pathAbsolute file) (files s))
                       (set_isValidated false s))) with (listening s).
  assert (Ha : scopes w2 !! a
               = (λ sa, if decide (this = a)
                        then with_files (obj_delete (file_pathAbsolute file) (files sa))
                               (set_isValidated false sa)
                        else sa) <$> scopes w !! a).
  { subst w2. rewrite !modify_lookup. destruct (decide (this = a)) as [->|Hne].
    - rewrite !decide_True by done. by destruct (scopes w !! a).
    - by destruct (scopes w !! a). }
  rewrite Ha. destruct (scopes w !! a); [|by case_bool_decide].
  by case_bool_decide.
Qed.



(** X5. [detachParent] undoes [attachParentScope]: after the two calls
    every scope has the callbacks it had before, the scope itself the
    callbacks included, no event has been emitted, and the parent of the
    scope is the platform scope; only the platform scope itself keeps the
    parent it was attached to. *)
Theorem detachParent_undoes_attachParentScope (this parent : ScopeId) (w w1 w2 : World) :
  handlesGiven w →
  attachParentScope this parent w = Some w1 →
  detachParent this w1 = Some w2 →
  (∀ a, listeners <$> scopes w2 !! a = listeners <$> scopes w !! a)
  ∧ parentScope <$> scopes w2 !! this
    = Some (Some (if decide (platformScope w = this) then parent else platformScope w))
  ∧ (∀ a, a ≠ this →
       (λ s, (parentScope s, parentScopeHandles s, isValidated s, files s))
         <$> scopes w2 !! a
       = (λ s, (parentScope s, parentScopeHandles s, isValidated s, files s))
           <$> scopes w !! a)
  ∧ emitted w2 = emitted w
  ∧ handlesGiven w2.
Proof.
  intros Hgiven Hattach Hdetach.
  destruct (attachParentScope_spec this parent w w1 Hattach)
    as (Hn & He & Hpl & Hlisten & Hparent & Hhandles & Hflags & Hrest & p & Hp & Hthis).
  destruct (detachParent_spec this w1 w2 Hdetach)
    as (s1 & Hs1 & Hn2 & He2 & Hpl2 & Hlisten2 & Hparent2 & Hrest2).
  assert (Hh1 : parentScopeHandles s1 = [(parent, nextHandle w)]).
  { specialize (Hhandles this). rewrite Hs1 in Hhandles.
    destruct (scopes w !! this); [|done]. simpl in Hhandles.
    rewrite decide_True in Hhandles by done. congruence. }
  assert (Hl2 : ∀ a, listeners <$> scopes w2 !! a = listeners <$> scopes w !! a).
  { intros a. rewrite Hlisten2, Hh1, Hlisten.
    destruct (scopes w !! a) as [sa|] eqn:Hsa; [|done].
    cbn [fmap option_fmap option_map]. f_equal. unfold remaining. cbn [foldl fst snd].
    destruct (decide (parent = a)) as [->|Hne].
    - rewrite decide_True by done. apply filter_fresh_handle.
      intros l Hl. by apply (Hgiven a sa l).
    - by rewrite decide_False by done. }
  split; [exact Hl2|]. split; [|split; [|split]].
  - rewrite Hparent2, Hs1. cbn [fmap option_fmap option_map]. f_equal.
    rewrite bool_decide_eq_true_2 by done. rewrite Hpl. cbn [andb].
    destruct (decide (platformScope w = this)) as [Heq|Hne].
    + rewrite bool_decide_eq_false_2 by (by intros ?).
      specialize (Hparent this). rewrite Hs1 in Hparent.
      destruct (scopes w !! this); [|done]. simpl in Hparent.
      rewrite decide_True in Hparent by done. congruence.
    + by rewrite bool_decide_eq_true_2.
  - intros a Ha.
    pose proof (Hrest2 a) as H2. pose proof (Hparent2 a) as Hp2.
    pose proof (Hparent a) as Hp1. pose proof (Hhandles a) as Hh.
    pose proof (Hflags a Ha) as Hf. pose proof (Hrest a) as Hr.
    rewrite bool_decide_eq_false_2 in Hp2 by done. cbn [andb] in Hp2.
    destruct (scopes w2 !! a) as [s2|]; destruct (scopes w1 !! a) as [sa1|];
      destruct (scopes w !! a) as [sa|]; try done.
    cbn [fmap option_fmap option_map] in *.
    rewrite decide_False in Hp1 by done. rewrite decide_False in Hh by done.
    simplify_eq. f_equal. congruence.
  - congruence.
  - intros a s2 l Hs2 Hl. rewrite Hn2, Hn.
    specialize (Hl2 a). rewrite Hs2 in Hl2.
    destruct (scopes w !! a) as [sa|] eqn:Hsa; [|done].
    simpl in Hl2. injection Hl2 as Hl2. rewrite Hl2 in Hl.
    specialize (Hgiven a sa l Hsa Hl). lia.
Qed.

Lemma detachParent_undoes_attachParentScope_witness :
  ∃ w1 w2,
    attachParentScope "main" "global" constructedWorld = Some w1
    ∧ detachParent "main" w1 = Some w2
    ∧ (∀ a, listeners <$> scopes w2 !! a = listeners <$> scopes constructedWorld !! a)
    ∧ parentScope <$> scopes w2 !! "main" = Some (Some "global").
Proof.
  destruct (attachParentScope "main" "global" constructedWorld) as [w1|] eqn:Hw1;
    [|by vm_compute in Hw1].
  assert (Hmain : is_Some (scopes w1 !! ("main" : ScopeId))).
  { pose proof (attachParentScope_spec _ _ _ _ Hw1) as (_ & _ & _ & _ & Hp & _).
    apply (fmap_is_Some parentScope). rewrite Hp. by eexists. }
  destruct (detachParent_total "main" w1 Hmain) as [w2 Hw2].
  assert (Hgiven : handlesGiven constructedWorld).
  { intros a s l Hs Hl. unfold constructedWorld in Hs. simpl in Hs.
    apply lookup_insert_Some in Hs as [[_ <-]|[_ Hs]]; [by apply elem_of_nil in Hl|].
    apply lookup_singleton_Some in Hs as [_ <-]. by apply elem_of_nil in Hl. }
  destruct (detachParent_undoes_attachParentScope
              "main" "global" constructedWorld w1 w2 Hgiven Hw1 Hw2)
    as (Hl & Hp & _).
  exists w1, w2. split; [done|]. split; [done|]. split; [exact Hl|exact Hp].
Defined.

(** X6. [attachParentScope] overwrites the handle it keeps without
    calling it: when a scope is attached a second time, to the same parent
    or to another one, the callback of the first attachment stays
    registered, and [detachParent] removes the second one only. The first
    parent goes on invalidating the scope: after the detachment its
    "invalidated" event still leaves the scope not validated. *)
Theorem second_attachment_leaves_first_callback (this p1 p2 : ScopeId) (w w1 w2 w3 : World) :
  attachParentScope this p1 w = Some w1 →
  attachParentScope this p2 w1 = Some w2 →
  detachParent this w2 = Some w3 →
  (∃ s3, scopes w3 !! p1 = Some s3 ∧ (nextHandle w, this) ∈ listeners s3)
  ∧ ∃ w4, emit p1 "invalidated" w3 = Some w4
          ∧ isValidated <$> scopes w4 !! this = Some false.
Proof.
  intros Hattach1 Hattach2 Hdetach.
  destruct (attachParentScope_spec this p1 w w1 Hattach1)
    as (Hn1 & _ & _ & Hlisten1 & _ & _ & _ & _ & q1 & Hq1 & _).
  destruct (attachParentScope_spec this p2 w1 w2 Hattach2)
    as (Hn2 & _ & _ & Hlisten2 & _ & Hhandles2 & _ & _ & q2 & Hq2 & _).
  destruct (detachParent_spec this w2 w3 Hdetach)
    as (s2 & Hs2 & _ & _ & _ & Hlisten3 & _ & _).
  assert (Hh2 : parentScopeHandles s2 = [(p2, nextHandle w1)]).
  { specialize (Hhandles2 this). rewrite Hs2 in Hhandles2.
    destruct (scopes w1 !! this); [|done]. simpl in Hhandles2.
    rewrite decide_True in Hhandles2 by done. congruence. }
  assert (Hs3 : ∃ s3, scopes w3 !! p1 = Some s3 ∧ (nextHandle w, this) ∈ listeners s3).
  { specialize (Hlisten3 p1). specialize (Hlisten2 p1). specialize (Hlisten1 p1).
    rewrite Hq1 in Hlisten1. rewrite Hh2 in Hlisten3.
    destruct (scopes w1 !! p1) as [s1|]; [|done].
    destruct (scopes w2 !! p1) as [s2'|]; [|done].
    destruct (scopes w3 !! p1) as [s3|]; [|done]. exists s3. split; [done|].
    cbn [fmap option_fmap option_map] in *.
    injection Hlisten3 as ->. injection Hlisten2 as ->. injection Hlisten1 as ->.
    rewrite (decide_True (P := p1 = p1)) by done. unfold remaining. cbn [foldl fst snd].
    destruct (decide (p2 = p1)) as [->|Hne].
    - rewrite decide_True by done. apply list_elem_of_filter. split; [simpl; lia|].
      apply elem_of_app. left. apply elem_of_app. right. apply list_elem_of_here.
    - rewrite decide_False by done.
      apply elem_of_app. right. apply list_elem_of_here. }
  split; [exact Hs3|]. destruct Hs3 as (s3 & Hs3 & Hin).
  destruct (emit_invalidated_spec p1 w3 s3 Hs3) as (w4 & Hw4 & _ & _ & _ & Hl).
  exists w4. split; [done|]. rewrite Hl.
  rewrite bool_decide_eq_true_2.
  - unfold detachParent in Hdetach.
    destruct (detachParent_spec this w2 w3 Hdetach) as (_ & _ & _ & _ & _ & _ & _ & Hrest).
    specialize (Hrest this). rewrite Hs2 in Hrest.
    destruct (scopes w3 !! this); [done|done].
  - unfold listening. apply list_elem_of_fmap. by exists (nextHandle w, this).
Qed.

Lemma second_attachment_leaves_first_callback_witness :
  ∃ w3 w4,
    (attachParentScope "main" "global" constructedWorld
       ≫= λ w1, attachParentScope "main" "global" w1 ≫= detachParent "main") = Some w3
    ∧ emit "global" "invalidated" w3 = Some w4
    ∧ isValidated <$> scopes w4 !! "main" = Some false.
Proof.
  destruct (attachParentScope "main" "global" constructedWorld) as [w1|] eqn:Hw1;
    [|by vm_compute in Hw1].
  pose proof (attachParentScope_spec _ _ _ _ Hw1) as (_ & _ & _ & _ & Hp1 & _).
  assert (Hglobal : is_Some (scopes w1 !! ("global" : ScopeId))).
  { apply (fmap_is_Some parentScope). rewrite Hp1. by eexists. }
  destruct (attachParentScope_inv "main" "global" w1 Hglobal) as (w2 & Hw2 & _).
  pose proof (attachParentScope_spec _ _ _ _ Hw2) as (_ & _ & _ & _ & Hp2 & _).
  assert (Hmain : is_Some (scopes w2 !! ("main" : ScopeId))).
  { apply (fmap_is_Some parentScope). rewrite Hp2.
    apply fmap_is_Some, (fmap_is_Some parentScope). rewrite Hp1. by eexists. }
  destruct (detachParent_total "main" w2 Hmain) as [w3 Hw3].
  destruct (second_attachment_leaves_first_callback
              "main" "global" "global" constructedWorld w1 w2 w3 Hw1 Hw2 Hw3)
    as (_ & w4 & Hw4 & Hflag).
  exists w3, w4. cbn [mbind option_bind]. rewrite Hw2. cbn [mbind option_bind].
  by rewrite Hw3.
Defined.

(** ** Membership *)

Lemma obj_get_delete {V} (o : JsObj V) (k k' : string) :
  obj_get (obj_delete k o) k' = if decide (k = k') then None else obj_get o k'.
Proof. unfold obj_get, obj_delete. simpl. apply lookup_delete. Qed.


Lemma filter_ne_fresh (keys : list string) (k : string) :
  k ∉ keys → filter (λ k', k' ≠ k) keys = keys.
Proof.
  intros Hk. induction keys as [|k0 keys IH]; [done|].
  rewrite filter_cons_True.
  - f_equal. apply IH. intros ?. apply Hk. by apply list_elem_of_further.
  - intros ->. apply Hk. apply list_elem_of_here.
Qed.


(** Adding and then deleting a key that was not there gives the object
    back. *)
Lemma obj_delete_set_fresh {V} (o : JsObj V) (k : string) (v : V) :
  obj_wf o → obj_get o k = None → obj_delete k (obj_set k v o) = o.
Proof.
  intros [Hnodup Hkeys] Hfresh. unfold obj_get in Hfresh.
  assert (Hk : k ∉ obj_keys o).
  { intros Hin. apply Hkeys in Hin as [? ?]. congruence. }
  destruct o as [keys m]. unfold obj_delete, obj_set. simpl in *. f_equal.
  - rewrite bool_decide_eq_false_2 by done. rewrite filter_app, filter_ne_fresh by done.
    rewrite (filter_singleton_False _ k); [|exact []|by intros ?]. apply app_nil_r.
  - by apply delete_insert_id.
Qed.

Lemma obj_entries_elem_of {V} (o : JsObj V) (k : string) (v : V) :
  (k, v) ∈ obj_entries o ↔ k ∈ obj_keys o ∧ obj_get o k = Some v.
Proof.
  unfold obj_entries. rewrite list_elem_of_omap. split.
  - intros (k' & Hin & Hget). destruct (obj_get o k') as [v'|] eqn:Hk'; [|done].
    simpl in Hget. injection Hget as <- <-. done.
  - intros [Hin Hget]. exists k. split; [done|]. by rewrite Hget.
Qed.

Lemma obj_set_key {V} (o : JsObj V) (k : string) (v : V) : k ∈ obj_keys (obj_set k v o).
Proof.
  unfold obj_set. simpl. case_bool_decide; [done|].
  apply elem_of_app. right. apply list_elem_of_here.
Qed.


(** What [addOrReplaceFile] leaves of the scope itself. *)
Lemma addOrReplaceFile_this `{Collaborators} (this : ScopeId) (file : File)
    (w : World) (s : Scope) :
  scopes w !! this = Some s →
  ∃ w', addOrReplaceFile this file w = Some w'
        ∧ scopes w' !! this
          = Some (with_files
                    (obj_set (file_pathAbsolute file) file
                       (if replacesMember s (file_pathAbsolute file)
                        then obj_delete (file_pathAbsolute file) (files s)
                        else files s))
                    (set_isValidated false s)).
Proof.
  intros Hs. unfold addOrReplaceFile, replacesMember. cbv zeta.
  rewrite modify_lookup_eq, Hs. cbn [fmap option_fmap option_map mbind option_bind].
  change (files (set_isValidated false s)) with (files s).
  destruct (obj_get (files s) (file_pathAbsolute file)) as [old|] eqn:Hold.
  - destruct (getFile s (file_pathAbsolute file)) as [ctxFile|] eqn:Hctx.
    + destruct (removeFile_member_spec this file ctxFile
                  (modify this (set_isValidated false) w) (set_isValidated false s))
        as (w1 & Hw1 & _ & _ & _ & Hl); [by rewrite modify_lookup_eq, Hs|done|].
      rewrite Hw1. cbn [mbind option_bind]. eexists. split; [done|].
      rewrite modify_lookup_eq, Hl, modify_lookup_eq, Hs.
      cbn [fmap option_fmap option_map]. rewrite decide_True by done.
      by case_bool_decide.
    + unfold removeFile. cbv zeta.
      rewrite modify_lookup_eq, modify_lookup_eq, Hs.
      cbn [fmap option_fmap option_map mbind option_bind].
      change (getFile (set_isValidated false (set_isValidated false s))
                (file_pathAbsolute file))
        with (getFile s (file_pathAbsolute file)).
      rewrite Hctx. cbn [mbind option_bind]. eexists. split; [done|].
      by rewrite !modify_lookup_eq, Hs.
  - cbn [mbind option_bind]. eexists. split; [done|]. by rewrite !modify_lookup_eq, Hs.
Qed.



(** X8. Adding a file the scope does not have and removing it again gives
    the member files back as they were: the same files under the same keys
    in the same order. The scope is left not validated, and the removal has
    emitted "invalidated" once. The path has to be one that
    [standardizePath] leaves alone, as [removeFile] looks the file up under
    the standardized path. *)
Theorem removeFile_undoes_addOrReplaceFile `{Collaborators} (this : ScopeId) (file : File)
    (w : World) (s : Scope) :
  scopes w !! this = Some s →
  obj_wf (files s) →
  obj_get (files s) (file_pathAbsolute file) = None →
  standardizePath (file_pathAbsolute file) = file_pathAbsolute file →
  ∃ w1 w2,
    addOrReplaceFile this file w = Some w1
    ∧ removeFile this file w1 = Some w2
    ∧ files <$> scopes w2 !! this = Some (files s)
    ∧ isValidated <$> scopes w2 !! this = Some false
    ∧ emitted w2 = emitted w ++ [ScopeEvent this "invalidated"].
Proof.
  intros Hs Hwf Hfresh Hstd.
  destruct (addOrReplaceFile_fresh_emits_nothing this file w s Hs Hfresh)
    as (w1 & Hw1 & He1 & _ & Hs1).
  assert (Hmember : getFile (with_files (obj_set (file_pathAbsolute file) file (files s))
                               (set_isValidated false s)) (file_pathAbsolute file)
                    = Some file).
  { unfold getFile. rewrite Hstd. cbn [files with_files]. rewrite obj_get_set.
    by rewrite decide_True. }
  destruct (removeFile_member_spec this file file w1 _ Hs1 Hmember)
    as (w2 & Hw2 & He2 & _ & _ & Hl).
  exists w1, w2. split; [done|]. split; [done|].
  rewrite Hl, Hs1. cbn [fmap option_fmap option_map]. rewrite decide_True by done.
  split; [|split; [|by rewrite He2, He1]].
  - f_equal.
    transitivity (obj_delete (file_pathAbsolute file)
                    (obj_set (file_pathAbsolute file) file (files s)));
      [by case_bool_decide|].
    by apply obj_delete_set_fresh.
  - by case_bool_decide.
Qed.

Lemma removeFile_undoes_addOrReplaceFile_witness :
  ∃ w1 w2,
    @addOrReplaceFile exampleCollaborators "main" mainFile constructedWorld = Some w1
    ∧ @removeFile exampleCollaborators "main" mainFile w1 = Some w2
    ∧ files <$> scopes w2 !! ("main" : ScopeId) = Some obj_empty
    ∧ emitted w2 = [ScopeEvent "main" "invalidated"].
Proof.
  destruct (@removeFile_undoes_addOrReplaceFile exampleCollaborators
              "main" mainFile constructedWorld (new_Scope (λ _, true))
              eq_refl obj_wf_empty eq_refl eq_refl)
    as (w1 & w2 & Hw1 & Hw2 & Hfiles & _ & He).
  by exists w1, w2.
Defined.

(** X9. Removing a file the scope does not have under the standardized
    path changes no membership and emits nothing, so no scope below is
    told; yet the scope itself is left not validated and without cached
    lookups. The handler of the program's "file-removed" event does not
    even do that: for a path that is no key of [files] it leaves the world
    as it is. *)
Theorem removeFile_of_a_stranger `{Collaborators} (this : ScopeId) (file : File)
    (w : World) (s : Scope) :
  scopes w !! this = Some s →
  getFile s (file_pathAbsolute file) = None →
  ∃ w', removeFile this file w = Some w'
        ∧ scopes w' !! this = Some (set_isValidated false s)
        ∧ (∀ a, a ≠ this → scopes w' !! a = scopes w !! a)
        ∧ emitted w' = emitted w
        ∧ (hasFile s (file_pathAbsolute file) = false → onFileRemoved this file w = Some w).
Proof.
  intros Hs Hstranger. unfold removeFile. cbv zeta.
  rewrite modify_lookup_eq, Hs. cbn [fmap option_fmap option_map mbind option_bind].
  change (getFile (set_isValidated false s) (file_pathAbsolute file))
    with (getFile s (file_pathAbsolute file)).
  rewrite Hstranger. eexists. split; [done|]. split; [by rewrite modify_lookup_eq, Hs|].
  split; [intros a Ha; by rewrite modify_lookup_ne|]. split; [done|].
  intros Hhas. unfold onFileRemoved. rewrite Hs. cbn [mbind option_bind]. by rewrite Hhas.
Qed.

Lemma removeFile_of_a_stranger_witness :
  ∃ w', @removeFile exampleCollaborators "main" mainFile constructedWorld = Some w'
        ∧ emitted w' = []
        ∧ @onFileRemoved exampleCollaborators "main" mainFile constructedWorld
          = Some constructedWorld.
Proof.
  destruct (@removeFile_of_a_stranger exampleCollaborators
              "main" mainFile constructedWorld (new_Scope (λ _, true)) eq_refl eq_refl)
    as (w' & Hw' & _ & _ & He & Hhandler).
  exists w'. split; [exact Hw'|]. split; [exact He|]. exact (Hhandler eq_refl).
Defined.

(** ** Validating again, and validating below a validated parent *)

Lemma validate_skips `{Collaborators} (fuel : nat) (this : ScopeId) (force : bool)
    (w : World) (s : Scope) :
  scopes w !! this = Some s →
  ¬ validationRuns s force →
  validate (S fuel) this force w = Some w.
Proof.
  intros Hs Hskip. simpl. rewrite Hs. cbn [mbind option_bind].
  assert (Hvalid : isValidated s = true).
  { destruct (isValidated s) eqn:Hv; [done|]. exfalso. apply Hskip. by left. }
  destruct (xmlFile s) as [x|] eqn:Hx.
  - unfold XmlScope_validate. rewrite Hs. cbn [mbind option_bind]. by rewrite Hvalid.
  - unfold Scope_validate. rewrite Hs. cbn [mbind option_bind]. rewrite Hvalid.
    destruct force; [|done]. exfalso. apply Hskip. by right.
Qed.

Lemma validationRuns_dec (s : Scope) (force : bool) :
  validationRuns s force ∨ ¬ validationRuns s force.
Proof.
  unfold validationRuns. destruct (isValidated s); [|by left; left].
  destruct force; [|right; by intros [?|[? _]]].
  destruct (xmlFile s); [right; by intros [?|[_ ?]]|left; by right].
Qed.

(** X10. Validating a scope again changes nothing: after any [validate]
    that returned, a second call that is not forced returns with the world
    as it is. For a descriptor scope this holds of a forced call too, as
    [XmlScope.validate] takes no argument: a validated descriptor scope
    cannot be made to validate again by [validate(true)]. *)
Theorem validate_again_changes_nothing `{Collaborators} (fuel : nat) (this : ScopeId)
    (force : bool) (w w' : World) :
  validate fuel this force w = Some w' →
  ∀ fuel',
    validate (S fuel') this false w' = Some w'
    ∧ ∀ s', scopes w' !! this = Some s' → is_Some (xmlFile s') →
            validate (S fuel') this true w' = Some w'.
Proof.
  intros Hrun fuel'. apply validate_inv in Hrun as (_ & Hvalid & _).
  unfold validatedIn in Hvalid.
  destruct (scopes w' !! this) as [s'|] eqn:Hs'; [|done].
  simpl in Hvalid. injection Hvalid as Hvalid. split.
  - apply (validate_skips _ _ _ _ s'); [done|]. intros [?|[? _]]; congruence.
  - intros s0 [= <-] [x Hx]. apply (validate_skips _ _ _ _ s'); [done|].
    intros [?|[_ ?]]; congruence.
Qed.

Lemma validate_again_changes_nothing_witness :
  ∃ w', @validate exampleCollaborators 3 "main" false freshWorld = Some w'
        ∧ @validate exampleCollaborators 1 "main" false w' = Some w'.
Proof.
  destruct (@validate exampleCollaborators 3 "main" false freshWorld) as [w'|] eqn:Hw';
    [|by vm_compute in Hw'].
  exists w'. split; [done|].
  exact (proj1 (@validate_again_changes_nothing exampleCollaborators
                  3 "main" false freshWorld w' Hw' 0)).
Defined.

(** X11. A validation never revalidates a parent that is validated, not
    even a forced one: when the parent of the scope is validated (or the
    scope has none), [validate] writes to the scope itself and to no other
    scope of the program. *)
Theorem validation_below_validated_parent `{Collaborators} (fuel : nat) (this : ScopeId)
    (force : bool) (w w' : World) (s : Scope) :
  validate fuel this force w = Some w' →
  scopes w !! this = Some s →
  (∀ parent, parentScope s = Some parent → validatedIn w parent) →
  ∀ a, a ≠ this → scopes w' !! a = scopes w !! a.
Proof.
  intros Hrun Hs Hparent a Ha. destruct fuel as [|fuel]; [done|].
  destruct (validationRuns_dec s force) as [Hruns|Hskip].
  - destruct (validate_run fuel this force w w' s Hrun Hs Hruns)
      as (w0 & force' & Hfirst & [_ Hothers] & _).
    assert (w0 = w) as ->; [|by apply Hothers].
    unfold validateParentFirst in Hfirst.
    destruct (parentScope s) as [parent|]; [|congruence].
    specialize (Hparent parent eq_refl). unfold validatedIn in Hparent.
    destruct (scopes w !! parent) as [p|]; [|done].
    cbn [mbind option_bind] in Hfirst. simpl in Hparent. injection Hparent as Hparent.
    rewrite Hparent in Hfirst. cbn [negb] in Hfirst. congruence.
  - rewrite (validate_skips fuel this force w s Hs Hskip) in Hrun. congruence.
Qed.

Lemma validation_below_validated_parent_witness :
  ∃ w1 w2,
    @validate exampleCollaborators 3 "main" false freshWorld = Some w1
    ∧ @validate exampleCollaborators 3 "main" true w1 = Some w2
    ∧ scopes w2 !! ("global" : ScopeId) = scopes w1 !! ("global" : ScopeId).
Proof.
  destruct (@validate exampleCollaborators 3 "main" false freshWorld) as [w1|] eqn:Hw1;
    [|by vm_compute in Hw1].
  pose proof (@validate_inv exampleCollaborators _ _ _ _ _ Hw1) as (L1 & Hv1 & Hp1).
  destruct (Hp1 _ eq_refl (or_introl eq_refl)) as [(s1' & Hs1) Hparent1].
  assert (Hd : chainDepth w1 "main" 1).
  { apply (chainDepth_sameLinks freshWorld); [exact L1|].
    eapply chainDepth_step; [reflexivity|reflexivity|].
    eapply chainDepth_root; reflexivity. }
  destruct (@validate_total exampleCollaborators w1 "main" 1 Hd 3 true ltac:(lia))
    as [w2 Hw2].
  exists w1, w2. split; [done|]. split; [done|].
  apply (@validation_below_validated_parent exampleCollaborators
           3 "main" true w1 w2 _ Hw2 Hs1); [|done].
  intros parent Hparent. apply Hparent1.
  destruct (sameLinks_parentScope _ _ _ _ L1 (eq_refl : scopes freshWorld !! "main" = Some _))
    as (s1 & Hs1' & Hlinks).
  rewrite Hs1 in Hs1'. injection Hs1' as <-.
  unfold links in Hlinks. injection Hlinks as Hl _ _ _ _.
  change (parentScope (set_isValidated true s1')) with (parentScope s1') in Hparent.
  change (parentScope (set_isValidated true s1')) with (parentScope s1') in Hl.
  assert (parent = "global") as -> by congruence. reflexivity.
Defined.

(** ** The diagnostics a validation leaves *)








(** ** Looking a callable up by name *)

(** X14. [getCallableByName] looks in the scope itself first and then in
    its ancestors, nearest first: it returns the first callable of the
    member files that answers to the name, and when there is none, what the
    parent returns for the name ([undefined] when there is no parent). The
    case of the letters of the name makes no difference. *)
Theorem getCallableByName_looks_in_own_files_first (fuel : nat) (w : World)
    (this : ScopeId) (s : Scope) (name : string) :
  scopes w !! this = Some s →
  getCallableByName (S fuel) w this name
  = match parentScope s with
    | Some parent =>
        inherited ← getCallableByName fuel w parent name;
        Some (match List.find (answersTo name) (getOwnCallables this s) with
              | Some c => Some (callable c)
              | None => inherited
              end)
    | None => Some (callable <$> List.find (answersTo name) (getOwnCallables this s))
    end
  ∧ ∀ name', toLowerCase name' = toLowerCase name →
      getCallableByName (S fuel) w this name' = getCallableByName (S fuel) w this name.
Proof.
  intros Hs. split.
  - unfold getCallableByName. cbv zeta. simpl. rewrite Hs. cbn [mbind option_bind].
    destruct (parentScope s) as [parent|]; [|done].
    destruct (getAllCallables fuel w parent) as [inherited|]; [|done].
    cbn [mbind option_bind]. f_equal.
    change (λ c : CallableContainer,
              String.eqb (toLowerCase (getName (callable c) BrighterScript))
                (toLowerCase name)) with (answersTo name).
    rewrite find_app. by destruct (List.find (answersTo name) (getOwnCallables this s)).
  - intros name' Hname. unfold getCallableByName. cbv zeta. by rewrite Hname.
Qed.

Lemma getCallableByName_looks_in_own_files_first_witness :
  getCallableByName 2 freshWorld "main" "DoThing"
  = (inherited ← getCallableByName 1 freshWorld "global" "DoThing";
     Some (match List.find (answersTo "DoThing")
                   (getOwnCallables "main"
                      (with_parentScopeHandles [("global", 0)]
                         (with_parentScope (Some "global") (new_Scope (λ _, true))))) with
           | Some c => Some (callable c)
           | None => inherited
           end)).
Proof.
  exact (proj1 (getCallableByName_looks_in_own_files_first 1 freshWorld "main"
                  (with_parentScopeHandles [("global", 0)]
                     (with_parentScope (Some "global") (new_Scope (λ _, true))))
                  "DoThing" eq_refl)).
Defined.

(** ** The script imports of a descriptor *)










(** ** Known namespaces *)









(** ** Member files and cached lookups stay in order *)






(** ** The namespace lookup: what the containers hold *)












(** ** A parent descriptor that comes and goes *)

Lemma log_event_field {A} (g : Scope → A) (e : Event) (w : World) (a : ScopeId) :
  g <$> scopes (log_event e w) !! a = g <$> scopes w !! a.
Proof. reflexivity. Qed.

Lemma xml_with_parent_None (x : XmlFile) (p : option XmlFile) :
  xml_parent x = None → xml_with_parent None (xml_with_parent p x) = x.
Proof. destruct x. simpl. by intros ->. Qed.

Lemma remaining_absent (handles : list (ScopeId * nat)) (a : ScopeId)
    (ls : list (nat * ScopeId)) :
  (∀ ph l, ph ∈ handles → l ∈ ls → l.1 ≠ ph.2) →
  remaining handles a ls = ls.
Proof.
  unfold remaining. revert ls. induction handles as [|ph handles IH]; intros ls Hfresh;
    [done|].
  cbn [foldl].
  assert (Hstep : (if decide (ph.1 = a) then filter (λ l : nat * ScopeId, l.1 ≠ ph.2) ls
                   else ls) = ls).
  { case_decide; [|done]. clear IH. induction ls as [|l ls IHls]; [done|].
    rewrite filter_cons_True.
    - f_equal. apply IHls. intros ph' l' Hph' Hl'. apply Hfresh; [done|].
      by apply list_elem_of_further.
    - apply Hfresh; apply list_elem_of_here. }
  rewrite Hstep. apply IH. intros ph' l Hph' Hl. apply Hfresh; [|done].
  by apply list_elem_of_further.
Qed.

(** X19. A parent descriptor that is added to the program and removed
    again leaves a descriptor scope as it found it, but for the flag and
    the parent link. [addParentIfMatch] resolves the parent and attaches the
    scope to the scope of the parent; [onProgramFileRemove] of the same
    file then clears the resolved parent and detaches the scope: the
    descriptor is as it was, every scope has the callbacks it had, the
    parent of the scope is the platform scope, and the scope is not
    validated. The two events of the descriptor, "attach-parent" and
    "detach-parent", are the only ones emitted. *)
Theorem parent_descriptor_added_then_removed (this : ScopeId) (w : World) (s : Scope)
    (x f : XmlFile) :
  scopes w !! this = Some s →
  xmlFile s = Some x →
  xml_parent x = None →
  truthy (parentName x) = true →
  componentName f = parentName x →
  is_Some (scopes w !! pkgPath (file_id (xml_common f))) →
  handlesGiven w →
  ∃ w1 w2,
    addParentIfMatch this (IsXmlFile f) w = Some w1
    ∧ (λ s1, (xmlFile s1, parentScope s1)) <$> scopes w1 !! this
      = Some (Some (xml_with_parent (Some f) x), Some (pkgPath (file_id (xml_common f))))
    ∧ onProgramFileRemove this (IsXmlFile f) w1 = Some w2
    ∧ (λ s2, (xmlFile s2, isValidated s2, files s2)) <$> scopes w2 !! this
      = Some (Some x, false, files s)
    ∧ (platformScope w ≠ this →
         parentScope <$> scopes w2 !! this = Some (Some (platformScope w)))
    ∧ (∀ a, listeners <$> scopes w2 !! a = listeners <$> scopes w !! a)
    ∧ emitted w2
      = emitted w ++ [XmlFileEvent (file_id (xml_common x)) "attach-parent";
                      XmlFileEvent (file_id (xml_common x)) "detach-parent"].
Proof.
  intros Hs Hx Hnone Hwants Hname Hscope Hgiven.
  set (P := pkgPath (file_id (xml_common f))) in *.
  (* the attachment *)
  unfold addParentIfMatch. rewrite Hs. cbn [mbind option_bind].
  rewrite Hx. cbn [mbind option_bind]. unfold addParentMatches.
  rewrite Hnone, Hwants, bool_decide_eq_true_2 by done. cbn [andb]. cbv zeta.
  unfold XmlFile_attachParent. rewrite modify_lookup_eq, Hs.
  cbn [fmap option_fmap option_map mbind option_bind].
  change (xmlFile (set_isValidated false s)) with (xmlFile s). rewrite Hx.
  cbn [mbind option_bind]. cbv zeta.
  match goal with
  | |- context [handleXmlFileParentAttach this f ?w0] => set (wb := w0)
  end.
  assert (Hb : ∀ {A} (g : Scope → A) a,
            g <$> scopes wb !! a
            = (λ sa, if decide (this = a)
                     then g (with_xmlFile (Some (xml_with_parent (Some f) x))
                               (set_isValidated false sa))
                     else g sa) <$> scopes w !! a).
  { intros A g a. subst wb. rewrite log_event_field, modify_field, modify_field.
    destruct (scopes w !! a); [|done]. simpl. f_equal. by case_decide. }
  assert (Hscopeb : is_Some (scopes wb !! P)).
  { apply (fmap_is_Some xmlFile). rewrite Hb. by apply fmap_is_Some. }
  destruct (attachParentScope_inv this P wb Hscopeb) as (w1 & Hw1 & _).
  unfold handleXmlFileParentAttach, getScopeByName. fold P.
  destruct Hscopeb as [p Hp]. rewrite Hp.
  destruct (attachParentScope_spec this P wb w1 Hw1)
    as (Hn1 & He1 & Hpl1 & Hlisten1 & Hparent1 & Hhandles1 & Hflags1 & Hrest1 & _).
  exists w1.
  assert (Hthis1 : ∃ s1, scopes w1 !! this = Some s1
                         ∧ xmlFile s1 = Some (xml_with_parent (Some f) x)
                         ∧ parentScope s1 = Some P
                         ∧ parentScopeHandles s1 = [(P, nextHandle w)]
                         ∧ files s1 = files s).
  { pose proof (Hrest1 this) as Hr. pose proof (Hparent1 this) as Hpa.
    pose proof (Hhandles1 this) as Hh.
    rewrite (Hb _ (λ s, (files s, xmlFile s, diagnostics s))), Hs in Hr.
    rewrite (Hb _ (λ s, if decide (this = this) then Some P else parentScope s)), Hs in Hpa.
    rewrite (Hb _ (λ s, if decide (this = this) then [(P, nextHandle wb)]
                        else parentScopeHandles s)), Hs in Hh.
    destruct (scopes w1 !! this) as [s1|]; [|done]. exists s1. split; [done|].
    cbn [fmap option_fmap option_map] in Hr, Hpa, Hh.
    rewrite decide_True in Hr by done. rewrite !decide_True in Hpa by done.
    rewrite !decide_True in Hh by done.
    injection Hr as Hf Hxf _. injection Hpa as Hpa. injection Hh as Hh. done. }
  destruct Hthis1 as (s1 & Hs1 & Hx1 & Hp1 & Hh1 & Hf1).
  (* the removal *)
  assert (Hremoved : removedFileIsParent (xml_with_parent (Some f) x) (IsXmlFile f) = true).
  { unfold removedFileIsParent. cbn [parentName xml_with_parent].
    rewrite Hname, Hwants. cbn [andb]. by rewrite bool_decide_eq_true_2. }
  unfold onProgramFileRemove. rewrite Hs1. cbn [mbind option_bind].
  rewrite Hx1. cbn [mbind option_bind]. rewrite Hremoved. cbv zeta.
  unfold XmlFile_detachParent. rewrite modify_lookup_eq, Hs1.
  cbn [fmap option_fmap option_map mbind option_bind].
  change (xmlFile (set_isValidated false s1)) with (xmlFile s1). rewrite Hx1.
  cbn [mbind option_bind]. cbv zeta.
  rewrite (xml_with_parent_None x (Some f) Hnone).
  match goal with
  | |- context [detachParent this ?w0 ≫= _] => set (wd := w0)
  end.
  assert (Hd : ∀ {A} (g : Scope → A) a,
            g <$> scopes wd !! a
            = (λ sa, if decide (this = a)
                     then g (with_xmlFile (Some x) (set_isValidated false sa))
                     else g sa) <$> scopes w1 !! a).
  { intros A g a. subst wd. rewrite log_event_field, modify_field, modify_field.
    destruct (scopes w1 !! a); [|done]. simpl. f_equal. by case_decide. }
  assert (Hthisd : is_Some (scopes wd !! this)).
  { apply (fmap_is_Some xmlFile). rewrite Hd, Hs1. by eexists. }
  destruct (detachParent_total this wd Hthisd) as [we Hwe].
  destruct (detachParent_spec this wd we Hwe)
    as (sd & Hsd & Hne & Hee & Hple & Hlistene & Hparente & Hreste).
  assert (Hthise : is_Some (scopes we !! this)).
  { apply (fmap_is_Some parentScope). rewrite Hparente. by apply fmap_is_Some. }
  destruct (detachParent_total this we Hthise) as [w2 Hw2].
  destruct (detachParent_spec this we w2 Hw2)
    as (se & Hse & Hn2 & He2 & Hpl2 & Hlisten2 & Hparent2 & Hrest2).
  exists w2. rewrite Hwe. cbn [mbind option_bind].
  assert (Hhd : parentScopeHandles sd = [(P, nextHandle w)]).
  { pose proof (Hd _ parentScopeHandles this) as Hh. rewrite Hsd, Hs1 in Hh.
    cbn [fmap option_fmap option_map] in Hh. rewrite decide_True in Hh by done.
    injection Hh as ->. done. }
  assert (Hhe : parentScopeHandles se = [(P, nextHandle w)]).
  { pose proof (Hreste this) as Hr. rewrite Hse, Hsd in Hr.
    cbn [fmap option_fmap option_map] in Hr. injection Hr as _ _ _ Hh _ _ _. congruence. }
  assert (Hlisten : ∀ a, listeners <$> scopes we !! a = listeners <$> scopes w !! a).
  { intros a. rewrite Hlistene, Hhd.
    rewrite (Hd _ listeners).
    transitivity (remaining [(P, nextHandle w)] a <$> (listeners <$> scopes w1 !! a)).
    { destruct (scopes w1 !! a); [|done]. cbn [fmap option_fmap option_map].
      by destruct (decide (this = a)). }
    rewrite Hlisten1.
    rewrite (Hb _ (λ s, if decide (a = P) then listeners s ++ [(nextHandle wb, this)]
                        else listeners s)).
    destruct (scopes w !! a) as [sa|] eqn:Hsa; [|done].
    cbn [fmap option_fmap option_map]. f_equal.
    assert (Hla : (if decide (this = a)
                   then if decide (a = P)
                        then listeners (with_xmlFile (Some (xml_with_parent (Some f) x))
                                          (set_isValidated false sa))
                             ++ [(nextHandle wb, this)]
                        else listeners (with_xmlFile (Some (xml_with_parent (Some f) x))
                                          (set_isValidated false sa))
                   else if decide (a = P) then listeners sa ++ [(nextHandle wb, this)]
                        else listeners sa)
                  = if decide (a = P) then listeners sa ++ [(nextHandle w, this)]
                    else listeners sa).
    { by destruct (decide (this = a)); destruct (decide (a = P)). }
    rewrite Hla. unfold remaining. cbn [foldl fst snd].
    destruct (decide (a = P)) as [->|Hne'].
    - rewrite decide_True by done. apply filter_fresh_handle.
      intros l Hl. by apply (Hgiven P sa l).
    - by rewrite decide_False by done. }
  split; [done|]. split; [by rewrite Hp1|]. split; [done|].
  split; [|split; [|split]].
  - pose proof (Hrest2 this) as Hr2. pose proof (Hreste this) as Hre.
    pose proof (Hd _ (λ s, (isValidated s, _namespaceLookup s, _classLookup s,
                            parentScopeHandles s, files s, xmlFile s, diagnostics s)) this)
      as Hrd.
    rewrite Hrd, Hs1 in Hre. rewrite Hre in Hr2.
    destruct (scopes w2 !! this) as [s2|]; [|done].
    cbn [fmap option_fmap option_map] in Hr2 |- *. rewrite decide_True in Hr2 by done.
    injection Hr2 as Hv _ _ _ Hf Hxf _. f_equal. rewrite Hv, Hf, Hxf. cbn. by rewrite Hf1.
  - intros Hplat. rewrite Hparent2, Hple.
    assert (Hpld : platformScope wd = platformScope w).
    { subst wd. cbn. rewrite Hpl1. by subst wb. }
    rewrite Hpld. destruct Hthise as [se' Hse']. rewrite Hse'.
    cbn [fmap option_fmap option_map]. rewrite !bool_decide_eq_true_2 by done. done.
  - intros a. rewrite Hlisten2, Hhe, Hlisten.
    destruct (scopes w !! a) as [sa|] eqn:Hsa; [|done].
    cbn [fmap option_fmap option_map]. f_equal. apply remaining_absent.
    intros ph l Hph Hl. apply list_elem_of_singleton in Hph as ->. simpl.
    specialize (Hgiven a sa l Hsa Hl). lia.
  - rewrite He2, Hee. subst wd. cbn. rewrite He1. subst wb. cbn.
    by rewrite <- app_assoc.
Qed.

Lemma parent_descriptor_added_then_removed_witness :
  ∃ w1 w2,
    addParentIfMatch "components/Child.xml" (IsXmlFile parentXml) familyWorld = Some w1
    ∧ onProgramFileRemove "components/Child.xml" (IsXmlFile parentXml) w1 = Some w2
    ∧ (λ s1, (xmlFile s1, parentScope s1)) <$> scopes w1 !! ("components/Child.xml" : ScopeId)
      = Some (Some (xml_with_parent (Some parentXml) orphanXml), Some "components/Parent.xml")
    ∧ parentScope <$> scopes w2 !! ("components/Child.xml" : ScopeId) = Some (Some "global").
Proof.
  assert (Hgiven : handlesGiven familyWorld).
  { intros a s l Hs Hl. unfold familyWorld in Hs. simpl in Hs.
    apply lookup_insert_Some in Hs as [[_ <-]|[_ Hs]]; [by apply elem_of_nil in Hl|].
    apply lookup_insert_Some in Hs as [[_ <-]|[_ Hs]]; [by apply elem_of_nil in Hl|].
    apply lookup_singleton_Some in Hs as [_ <-]. by apply elem_of_nil in Hl. }
  destruct (parent_descriptor_added_then_removed
              "components/Child.xml" familyWorld
              (with_parentScope (Some "global") (new_XmlScope orphanXml))
              orphanXml parentXml eq_refl eq_refl eq_refl eq_refl eq_refl
              (ex_intro _ _ eq_refl) Hgiven)
    as (w1 & w2 & Hw1 & Hs1 & Hw2 & _ & Hp2 & _).
  exists w1, w2. split; [done|]. split; [done|]. split; [exact Hs1|].
  apply Hp2. discriminate.
Defined.

(** ** Attaching a scope to the program *)

Lemma removeFile_keeps `{Collaborators} {A} (g : Scope → A) (this : ScopeId) (file : File)
    (w w' : World) :
  (∀ v s, g (set_isValidated v s) = g s) →
  (∀ F s, g (with_files F s) = g s) →
  removeFile this file w = Some w' →
  (∀ a, g <$> scopes w' !! a = g <$> scopes w !! a)
  ∧ nextHandle w' = nextHandle w
  ∧ platformScope w' = platformScope w.
Proof.
  intros Hflag Hfiles Hrun.
  destruct (scopes w !! this) as [s|] eqn:Hs.
  - destruct (getFile s (file_pathAbsolute file)) as [ctxFile|] eqn:Hctx.
    + destruct (removeFile_member_spec this file ctxFile w s Hs Hctx)
        as (w1 & Hw1 & _ & Hp & Hn & Hl).
      assert (w1 = w') as -> by congruence. split; [|done].
      intros a. rewrite Hl. destruct (scopes w !! a) as [sa|]; [|done].
      cbn [fmap option_fmap option_map]. f_equal.
      case_bool_decide; case_decide; by rewrite ?Hflag, ?Hfiles, ?Hflag.
    + unfold removeFile in Hrun. cbv zeta in Hrun.
      rewrite modify_lookup_eq, Hs in Hrun.
      cbn [fmap option_fmap option_map mbind option_bind] in Hrun.
      change (getFile (set_isValidated false s) (file_pathAbsolute file))
        with (getFile s (file_pathAbsolute file)) in Hrun.
      rewrite Hctx in Hrun. injection Hrun as <-. split; [|done].
      intros a. apply modify_keeps. apply Hflag.
  - unfold removeFile in Hrun. cbv zeta in Hrun.
    by rewrite modify_lookup_eq, Hs in Hrun.
Qed.

Lemma addOrReplaceFile_keeps `{Collaborators} {A} (g : Scope → A) (this : ScopeId)
    (file : File) (w w' : World) :
  (∀ v s, g (set_isValidated v s) = g s) →
  (∀ F s, g (with_files F s) = g s) →
  addOrReplaceFile this file w = Some w' →
  (∀ a, g <$> scopes w' !! a = g <$> scopes w !! a)
  ∧ nextHandle w' = nextHandle w
  ∧ platformScope w' = platformScope w.
Proof.
  intros Hflag Hfiles Hrun. unfold addOrReplaceFile in Hrun. cbv zeta in Hrun.
  apply bind_Some in Hrun as (s0 & Hs0 & Hrun).
  apply bind_Some in Hrun as (w1 & Hw1 & Hrun). injection Hrun as <-.
  assert (H1 : (∀ a, g <$> scopes w1 !! a
                     = g <$> scopes (modify this (set_isValidated false) w) !! a)
               ∧ nextHandle w1 = nextHandle w ∧ platformScope w1 = platformScope w).
  { destruct (obj_get (files s0) (file_pathAbsolute file)).
    - by apply (removeFile_keeps g) in Hw1.
    - by injection Hw1 as <-. }
  destruct H1 as (Hk & Hn & Hp). split; [|done].
  intros a. rewrite modify_keeps by (intros; apply Hfiles).
  rewrite Hk. apply modify_keeps. apply Hflag.
Qed.

(** The loop of [attachProgram] over some of the files of the program. *)
Lemma attachProgram_loop `{Collaborators} (this : ScopeId) (s : Scope)
    (l : list (string * File)) (w : World) (s0 : Scope) :
  scopes w !! this = Some s0 →
  matcher s0 = matcher s → xmlFile s0 = xmlFile s →
  ∃ w' s',
    foldM (λ w kf, onFileAdded this kf.2 w) w l = Some w'
    ∧ scopes w' !! this = Some s'
    ∧ matcher s' = matcher s ∧ xmlFile s' = xmlFile s
    ∧ (∀ path,
         obj_get (files s') path
         = match last (filter (λ kf : string * File,
                                 matches s kf.2 = true ∧ file_pathAbsolute kf.2 = path) l) with
           | Some kf => Some kf.2
           | None => obj_get (files s0) path
           end)
    ∧ (∀ A (g : Scope → A),
         (∀ v s, g (set_isValidated v s) = g s) →
         (∀ F s, g (with_files F s) = g s) →
         (∀ a, g <$> scopes w' !! a = g <$> scopes w !! a))
    ∧ nextHandle w' = nextHandle w
    ∧ platformScope w' = platformScope w.
Proof.
  revert w s0. induction l as [|kf l IH]; intros w s0 Hs0 Hm Hx.
  - exists w, s0. by repeat split.
  - assert (Hmatches : matches s0 kf.2 = matches s kf.2).
    { unfold matches. by rewrite Hm, Hx. }
    destruct (matches s kf.2) eqn:Hmatch.
    + destruct (addOrReplaceFile_this this kf.2 w s0 Hs0) as (w1 & Hw1 & Hs1).
      assert (Hstep : onFileAdded this kf.2 w = Some w1).
      { unfold onFileAdded. rewrite Hs0. cbn [mbind option_bind]. by rewrite Hmatches. }
      destruct (IH w1 _ Hs1 Hm Hx) as (w' & s' & Hw' & Hs' & Hm' & Hx' & Hget & Hkeep & Hn & Hp).
      exists w', s'. rewrite (foldM_cons_Some _ _ _ _ _ Hstep).
      split; [done|]. split; [done|]. split; [done|]. split; [done|].
      split; [|split; [|split]].
      * intros path. rewrite Hget, filter_cons. cbn [files with_files].
        case_decide as Hadd.
        -- destruct Hadd as [_ Hpath]. rewrite last_cons.
           destruct (last (filter _ l)); [done|].
           rewrite obj_get_set. by rewrite decide_True.
        -- destruct (last (filter _ l)); [done|].
           rewrite obj_get_set. rewrite decide_False by (intros ?; apply Hadd; by split).
           destruct (replacesMember s0 (file_pathAbsolute kf.2)); [|done].
           rewrite obj_get_delete.
           by rewrite decide_False by (intros ?; apply Hadd; by split).
      * intros A g Hflag Hfiles a. rewrite (Hkeep _ g Hflag Hfiles).
        by apply (addOrReplaceFile_keeps g this kf.2 w w1).
      * rewrite Hn. by apply (addOrReplaceFile_keeps (λ _, ()) this kf.2 w w1).
      * rewrite Hp. by apply (addOrReplaceFile_keeps (λ _, ()) this kf.2 w w1).
    + assert (Hstep : onFileAdded this kf.2 w = Some w).
      { unfold onFileAdded. rewrite Hs0. cbn [mbind option_bind]. by rewrite Hmatches. }
      destruct (IH w s0 Hs0 Hm Hx) as (w' & s' & Hw' & Hs' & Hm' & Hx' & Hget & Hrest).
      exists w', s'. rewrite (foldM_cons_Some _ _ _ _ _ Hstep).
      split; [done|]. split; [done|]. split; [done|]. split; [done|].
      split; [|done].
      intros path. rewrite Hget, filter_cons.
      rewrite decide_False; [done|]. intros [? _]. congruence.
Qed.

(** X20. [attachProgram] makes the files of the program that match the
    scope its members, and no others: after the call a path is a member
    exactly when it was one or is the path of a matching file of the
    program, and what is stored under a path is the last matching file of
    the program with that path, or else what was there. The parent links,
    the descriptors and the callbacks of all scopes stay as they were: the
    loop registers nothing with any scope. *)
Theorem attachProgram_adds_the_matching_files `{Collaborators} (this : ScopeId)
    (programFiles : JsObj File) (w : World) (s : Scope) :
  scopes w !! this = Some s →
  ∃ w' s',
    Scope_attachProgram this programFiles w = Some w'
    ∧ scopes w' !! this = Some s'
    ∧ (∀ path,
         obj_get (files s') path
         = match last (filter (λ kf : string * File,
                                 matches s kf.2 = true ∧ file_pathAbsolute kf.2 = path)
                         (obj_entries programFiles)) with
           | Some kf => Some kf.2
           | None => obj_get (files s) path
           end)
    ∧ (∀ path,
         hasFile s' path = true
         ↔ hasFile s path = true
           ∨ ∃ kf, kf ∈ obj_entries programFiles
                   ∧ matches s kf.2 = true ∧ file_pathAbsolute kf.2 = path)
    ∧ (∀ a, (λ sa, (listeners sa, parentScope sa, parentScopeHandles sa, xmlFile sa))
              <$> scopes w' !! a
            = (λ sa, (listeners sa, parentScope sa, parentScopeHandles sa, xmlFile sa))
                <$> scopes w !! a).
Proof.
  intros Hs.
  destruct (attachProgram_loop this s (obj_entries programFiles) w s Hs eq_refl eq_refl)
    as (w' & s' & Hw' & Hs' & _ & _ & Hget & Hkeep & _).
  exists w', s'. split; [done|]. split; [done|]. split; [exact Hget|]. split.
  - intros path. unfold hasFile. rewrite Hget.
    destruct (last (filter _ (obj_entries programFiles))) as [kf|] eqn:Hlast.
    + split; [|done]. intros _. right. exists kf.
      apply last_Some_elem_of, list_elem_of_filter in Hlast as [[? ?] ?]. done.
    + apply last_None in Hlast. split; [by left|].
      intros [?|(kf & Hin & Hm & Hp)]; [done|].
      assert (Hf : kf ∈ filter (λ kf : string * File,
                                  matches s kf.2 = true ∧ file_pathAbsolute kf.2 = path)
                         (obj_entries programFiles))
        by (by apply list_elem_of_filter).
      rewrite Hlast in Hf. by apply elem_of_nil in Hf.
  - intros a. by apply Hkeep.
Qed.

Lemma attachProgram_adds_the_matching_files_witness :
  ∃ w' s',
    @Scope_attachProgram exampleCollaborators "main"
      (obj_set (file_pathAbsolute mainFile) mainFile obj_empty) constructedWorld = Some w'
    ∧ scopes w' !! ("main" : ScopeId) = Some s'
    ∧ hasFile s' (file_pathAbsolute mainFile) = true.
Proof.
  destruct (@attachProgram_adds_the_matching_files exampleCollaborators "main"
              (obj_set (file_pathAbsolute mainFile) mainFile obj_empty)
              constructedWorld (new_Scope (λ _, true)) eq_refl)
    as (w' & s' & Hw' & Hs' & _ & Hhas & _).
  exists w', s'. split; [exact Hw'|]. split; [exact Hs'|].
  apply Hhas. right. exists (file_pathAbsolute mainFile, mainFile).
  split; [|split; reflexivity].
  apply obj_entries_elem_of. split; [apply obj_set_key|].
  rewrite obj_get_set. by rewrite decide_True.
Defined.

Lemma addParentIfMatch_skips (this : ScopeId) (file : File) (w : World) (s : Scope)
    (x : XmlFile) :
  scopes w !! this = Some s → xmlFile s = Some x →
  addParentMatches x file = None →
  addParentIfMatch this file w = Some w.
Proof.
  intros Hs Hx Hno. unfold addParentIfMatch. rewrite Hs. cbn [mbind option_bind].
  rewrite Hx. cbn [mbind option_bind]. by rewrite Hno.
Qed.

Lemma addParentIfMatch_loop_skips (this : ScopeId) (l : list (string * File)) (w : World)
    (s : Scope) (x : XmlFile) :
  scopes w !! this = Some s → xmlFile s = Some x →
  (∀ kf, kf ∈ l → addParentMatches x kf.2 = None) →
  foldM (λ w kf, addParentIfMatch this kf.2 w) w l = Some w.
Proof.
  intros Hs Hx. induction l as [|kf l IH]; intros Hno; [done|].
  rewrite (foldM_cons_Some _ _ w _ _ (addParentIfMatch_skips this kf.2 w s x Hs Hx
                                        (Hno kf (list_elem_of_here _ _)))).
  apply IH. intros kf' Hkf'. apply Hno. by apply list_elem_of_further.
Qed.

Lemma foldM_app_Some {A B} (f : A → B → option A) (a a' : A) (l1 l2 : list B) :
  foldM f a l1 = Some a' → foldM f a (l1 ++ l2) = foldM f a' l2.
Proof. unfold foldM. intros Hl1. by rewrite foldl_app, Hl1. Qed.

(** What [addParentIfMatch] does with the descriptor it was waiting for,
    when the scope of that descriptor is registered. *)
Lemma addParentIfMatch_attaches (this : ScopeId) (w : World) (s : Scope) (x f : XmlFile) :
  scopes w !! this = Some s →
  xmlFile s = Some x →
  xml_parent x = None →
  truthy (parentName x) = true →
  componentName f = parentName x →
  is_Some (scopes w !! pkgPath (file_id (xml_common f))) →
  ∃ w1 s1,
    addParentIfMatch this (IsXmlFile f) w = Some w1
    ∧ scopes w1 !! this = Some s1
    ∧ xmlFile s1 = Some (xml_with_parent (Some f) x)
    ∧ parentScope s1 = Some (pkgPath (file_id (xml_common f)))
    ∧ parentScopeHandles s1 = [(pkgPath (file_id (xml_common f)), nextHandle w)]
    ∧ nextHandle w1 = S (nextHandle w)
    ∧ platformScope w1 = platformScope w
    ∧ ∀ a : ScopeId, listeners <$> scopes w1 !! a
           = (λ sa, if decide (a = pkgPath (file_id (xml_common f)))
                    then listeners sa ++ [(nextHandle w, this)] else listeners sa)
             <$> scopes w !! a.
Proof.
  intros Hs Hx Hnone Hwants Hname Hscope.
  set (P := pkgPath (file_id (xml_common f))) in *.
  unfold addParentIfMatch. rewrite Hs. cbn [mbind option_bind].
  rewrite Hx. cbn [mbind option_bind]. unfold addParentMatches.
  rewrite Hnone, Hwants, bool_decide_eq_true_2 by done. cbn [andb]. cbv zeta.
  unfold XmlFile_attachParent. rewrite modify_lookup_eq, Hs.
  cbn [fmap option_fmap option_map mbind option_bind].
  change (xmlFile (set_isValidated false s)) with (xmlFile s). rewrite Hx.
  cbn [mbind option_bind]. cbv zeta.
  match goal with
  | |- context [handleXmlFileParentAttach this f ?w0] => set (wb := w0)
  end.
  assert (Hb : ∀ A (g : Scope → A) a,
            g <$> scopes wb !! a
            = (λ sa, if decide (this = a)
                     then g (with_xmlFile (Some (xml_with_parent (Some f) x))
                               (set_isValidated false sa))
                     else g sa) <$> scopes w !! a).
  { intros A g a. subst wb. rewrite log_event_field, modify_field, modify_field.
    destruct (scopes w !! a); [|done]. simpl. f_equal. by case_decide. }
  assert (Hscopeb : is_Some (scopes wb !! P)).
  { apply (fmap_is_Some xmlFile). rewrite Hb. by apply fmap_is_Some. }
  destruct (attachParentScope_inv this P wb Hscopeb) as (w1 & Hw1 & _).
  unfold handleXmlFileParentAttach, getScopeByName. fold P.
  destruct Hscopeb as [p Hp]. rewrite Hp.
  destruct (attachParentScope_spec this P wb w1 Hw1)
    as (Hn1 & He1 & Hpl1 & Hlisten1 & Hparent1 & Hhandles1 & Hflags1 & Hrest1 & _).
  pose proof (Hrest1 this) as Hr. pose proof (Hparent1 this) as Hpa.
  pose proof (Hhandles1 this) as Hh.
  rewrite (Hb _ (λ s, (files s, xmlFile s, diagnostics s))), Hs in Hr.
  rewrite (Hb _ (λ s, if decide (this = this) then Some P else parentScope s)), Hs in Hpa.
  rewrite (Hb _ (λ s, if decide (this = this) then [(P, nextHandle wb)]
                      else parentScopeHandles s)), Hs in Hh.
  destruct (scopes w1 !! this) as [s1|] eqn:Hs1; [|done].
  cbn [fmap option_fmap option_map] in Hr, Hpa, Hh.
  rewrite decide_True in Hr by done. rewrite !decide_True in Hpa by done.
  rewrite !decide_True in Hh by done.
  injection Hr as Hf Hxf _. injection Hpa as Hpa. injection Hh as Hh.
  exists w1, s1. split; [done|]. split; [done|]. split; [done|]. split; [done|].
  split; [done|]. split; [done|]. split; [done|].
  intros a. rewrite Hlisten1.
  rewrite (Hb _ (λ s, if decide (a = P) then listeners s ++ [(nextHandle wb, this)]
                      else listeners s)).
  destruct (scopes w !! a) as [sa|]; [|done].
  cbn [fmap option_fmap option_map]. f_equal.
  by destruct (decide (this = a)); destruct (decide (a = P)).
Qed.

(** X21. [XmlScope.attachProgram] registers the callback of the scope
    twice. When the program holds the parent descriptor the scope is
    waiting for, and the scope of that descriptor is registered, the loop
    over the files of the program resolves the parent, which attaches the
    scope to the scope of the parent, and the statement after the loop
    attaches it again. The scope of the parent ends with two "invalidated"
    callbacks of this scope, of which the scope keeps the handle of the
    second only: [detachParent] leaves the first registered. *)
Theorem XmlScope_attachProgram_attaches_twice `{Collaborators} (this : ScopeId)
    (programFiles : JsObj File) (w : World) (s : Scope) (x f : XmlFile)
    (before rest : list (string * File)) (k : string) :
  scopes w !! this = Some s →
  xmlFile s = Some x →
  xml_parent x = None →
  truthy (parentName x) = true →
  obj_entries programFiles = before ++ (k, IsXmlFile f) :: rest →
  componentName f = parentName x →
  (∀ kf, kf ∈ before → addParentMatches x kf.2 = None) →
  is_Some (scopes w !! pkgPath (file_id (xml_common f))) →
  ∃ w3 s3,
    XmlScope_attachProgram this programFiles w = Some w3
    ∧ scopes w3 !! this = Some s3
    ∧ xmlFile s3 = Some (xml_with_parent (Some f) x)
    ∧ parentScope s3 = Some (pkgPath (file_id (xml_common f)))
    ∧ parentScopeHandles s3 = [(pkgPath (file_id (xml_common f)), S (nextHandle w))]
    ∧ listeners <$> scopes w3 !! pkgPath (file_id (xml_common f))
      = (λ p, listeners p ++ [(nextHandle w, this); (S (nextHandle w), this)])
        <$> scopes w !! pkgPath (file_id (xml_common f))
    ∧ ∃ w4 p4,
        detachParent this w3 = Some w4
        ∧ scopes w4 !! pkgPath (file_id (xml_common f)) = Some p4
        ∧ (nextHandle w, this) ∈ listeners p4.
Proof.
  intros Hs Hx Hnone Hwants Hentries Hname Hbefore Hscope0.
  pose (P := pkgPath (file_id (xml_common f)) : ScopeId).
  change (pkgPath (file_id (xml_common f))) with P in Hscope0 |- *.
  assert (Hscope : is_Some (scopes w !! P)) by exact Hscope0.
  unfold XmlScope_attachProgram.
  (* the files of the program that match *)
  destruct (attachProgram_loop this s (obj_entries programFiles) w s Hs eq_refl eq_refl)
    as (w1 & s1 & Hw1 & Hs1 & _ & Hx1 & _ & Hkeep1 & Hn1 & Hp1).
  unfold Scope_attachProgram. rewrite Hw1. cbn [mbind option_bind].
  rewrite Hx in Hx1.
  assert (Hscope1 : is_Some (scopes w1 !! P)).
  { apply (fmap_is_Some listeners). rewrite (Hkeep1 _ listeners) by done.
    by apply fmap_is_Some. }
  (* the search for the parent *)
  destruct (addParentIfMatch_attaches this w1 s1 x f Hs1 Hx1 Hnone Hwants Hname Hscope1)
    as (w2 & s2 & Hw2 & Hs2 & Hx2 & Hpa2 & Hh2 & Hn2 & Hp2 & Hl2).
  change (pkgPath (file_id (xml_common f))) with P in Hpa2, Hh2, Hl2.
  assert (Hloop : foldM (λ w kf, addParentIfMatch this kf.2 w) w1 (obj_entries programFiles)
                  = Some w2).
  { rewrite Hentries.
    rewrite (foldM_app_Some _ w1 w1)
      by (by apply (addParentIfMatch_loop_skips this before w1 s1 x)).
    rewrite (foldM_cons_Some (λ w kf, addParentIfMatch this kf.2 w) w1 w2
               (k, IsXmlFile f) rest Hw2).
    apply (addParentIfMatch_loop_skips this rest w2 s2 _ Hs2 Hx2).
    intros kf _. by destruct kf.2. }
  rewrite Hloop. cbn [mbind option_bind]. rewrite Hs2. cbn [mbind option_bind].
  rewrite Hx2. cbn [mbind option_bind xml_parent xml_with_parent].
  (* the second attachment *)
  assert (Hscope2 : is_Some (scopes w2 !! P)).
  { apply (fmap_is_Some listeners). rewrite Hl2. by apply fmap_is_Some. }
  destruct (attachParentScope_inv this P w2 Hscope2) as (w3 & Hw3 & _).
  unfold handleXmlFileParentAttach, getScopeByName.
  change (pkgPath (file_id (xml_common f))) with P.
  destruct Hscope2 as [p2 Hp2'].
  change (scopes w2 !! (P : string)) with (scopes w2 !! P). rewrite Hp2'.
  destruct (attachParentScope_spec this P w2 w3 Hw3)
    as (Hn3 & _ & _ & Hl3 & Hpa3 & Hh3 & _ & Hrest3 & _).
  pose proof (Hpa3 this) as Hpa. pose proof (Hh3 this) as Hh.
  pose proof (Hrest3 this) as Hr. rewrite Hs2 in Hpa, Hh, Hr.
  destruct (scopes w3 !! this) as [s3|] eqn:Hs3; [|done].
  cbn [fmap option_fmap option_map] in Hpa, Hh, Hr.
  rewrite decide_True in Hpa by done. rewrite decide_True in Hh by done.
  injection Hpa as Hpa. injection Hh as Hh. injection Hr as _ Hxf _.
  assert (Hlisten : listeners <$> scopes w3 !! P
                    = (λ p, listeners p ++ [(nextHandle w, this); (S (nextHandle w), this)])
                      <$> scopes w !! P).
  { specialize (Hl3 P). specialize (Hl2 P).
    pose proof (Hkeep1 _ listeners ltac:(done) ltac:(done) P) as Hk.
    destruct Hscope as [p0 Hp0]. rewrite Hp0 in Hk |- *.
    apply fmap_Some in Hk as (p1 & Hq1 & Hk). rewrite Hq1 in Hl2.
    apply fmap_Some in Hl2 as (p2' & Hp2'' & Hl2). rewrite Hp2'' in Hl3.
    rewrite Hl3. cbn [fmap option_fmap option_map]. f_equal.
    rewrite decide_True in Hl2 by done. rewrite decide_True by done.
    rewrite <- Hl2, <- Hk, Hn2, Hn1.
    by rewrite <- app_assoc. }
  exists w3, s3. split; [done|]. split; [done|]. split; [congruence|].
  split; [done|]. split; [by rewrite Hh, Hn2, Hn1|]. split; [exact Hlisten|].
  (* the detachment *)
  destruct (detachParent_total this w3) as [w4 Hw4]; [by eexists|].
  destruct (detachParent_spec this w3 w4 Hw4) as (s3' & Hs3' & _ & _ & _ & Hl4 & _).
  assert (s3' = s3) as -> by congruence.
  specialize (Hl4 P). rewrite Hlisten, Hh, Hn2, Hn1 in Hl4.
  destruct Hscope as [p Hp]. rewrite Hp in Hl4.
  apply fmap_Some in Hl4 as (p4 & Hp4 & Hl4).
  exists w4, p4. split; [done|]. split; [done|]. rewrite <- Hl4.
  unfold remaining. cbn [foldl fst snd]. rewrite decide_True by done.
  apply list_elem_of_filter. split; [simpl; lia|].
  apply elem_of_app. right. apply list_elem_of_here.
Qed.

Lemma XmlScope_attachProgram_attaches_twice_witness :
  ∃ w3,
    @XmlScope_attachProgram exampleCollaborators "components/Child.xml"
      (obj_set "/project/components/Parent.xml" (IsXmlFile parentXml) obj_empty)
      familyWorld = Some w3
    ∧ listeners <$> scopes w3 !! ("components/Parent.xml" : ScopeId)
      = Some [(0, "components/Child.xml"); (1, "components/Child.xml")].
Proof.
  destruct (@XmlScope_attachProgram_attaches_twice exampleCollaborators
              "components/Child.xml"
              (obj_set "/project/components/Parent.xml" (IsXmlFile parentXml) obj_empty)
              familyWorld
              (with_parentScope (Some "global") (new_XmlScope orphanXml))
              orphanXml parentXml [] [] "/project/components/Parent.xml"
              eq_refl eq_refl eq_refl eq_refl eq_refl eq_refl)
    as (w3 & s3 & Hw3 & _ & _ & _ & _ & Hlisten & _).
  - by intros kf ?%elem_of_nil.
  - by eexists.
  - exists w3. split; [exact Hw3|]. exact Hlisten.
Defined.
